(** * optest operator examples: raw-tensor codec, shape parser, matmul kernel

    A shallow embedding of the C++ operator runners of the repository
    (examples/matmul_cpp/operator/matmul_runner.cpp, matmul_kernel.cpp and
    examples/operator_cpp/operator/op_runner.cpp) together with the
    properties their specification states about them.

    Conventions of the embedding:
    - [int64_t] and [int32_t] values are integers of [Z] kept in the signed
      range, every arithmetic operation wrapping around (two's complement:
      C++ leaves signed overflow undefined, and this is what the compiled
      multiplications and additions give);
    - [size_t] values are naturals of [N] below [2^64], wrapping around;
    - a [float] is its four bytes, with the arithmetic of IEEE 754 binary32;
    - a [std::string] is a [string]; the bytes of a file are a
      [list Byte.byte];
    - a [std::vector<T>] is a [list T]; an access outside its bounds is
      undefined behaviour and is modelled by the outcome [Undefined];
    - a C++ exception is the outcome [Throw e], where [e] names the [throw]
      site and [what e] is the message of the [std::runtime_error];
    - the standard library is libstdc++: the messages of its own
      exceptions, the largest size of a [std::vector] and the buffering of a
      [std::ofstream] are the ones of its headers. *)

From Stdlib Require Import ZArith NArith List String Ascii Bool Lia.
From Stdlib Require Import Strings.Byte Floats.SpecFloat.
From stdpp Require Import gmap strings list fin_maps.

Local Open Scope Z_scope.

(** ** Fixed-width integers *)

Module Int64.

Definition modulus : Z := 2 ^ 64.
Definition half_modulus : Z := 2 ^ 63.

(** The value of type [int64_t] congruent to [z] modulo [2^64]. *)
Definition wrap (z : Z) : Z := (z + half_modulus) mod modulus - half_modulus.

Definition in_range (z : Z) : Prop := - half_modulus <= z < half_modulus.

Definition add (x y : Z) : Z := wrap (x + y).
Definition mul (x y : Z) : Z := wrap (x * y).

End Int64.

(** ** Exceptions and outcomes *)

(** One constructor per [throw] site of the runners, and one for each
    exception of the standard library that they let through: the
    [std::filesystem::filesystem_error] of [create_directories], which
    carries the message the library composed for it, the
    [std::length_error] of a [std::vector] constructor and the
    [std::bad_alloc] of [operator new]. *)
Inductive error : Type :=
  | failed_to_open (path : string)
  | size_not_aligned (path : string)
  | failed_to_read (path : string)
  | create_directories_failed (path : string) (message : string)
  | vector_length_error
  | bad_alloc
  | failed_to_open_for_write (path : string)
  | failed_to_write (path : string)
  | shapes_required
  | shapes_too_few
  | shape_k_mismatch
  | output_shape_mismatch
  | input_sizes_mismatch
  | input_sizes_differ
  | unsupported_dtype (tag : string).

(** The message carried by the exception ([ex.what()]). *)
Definition what (e : error) : string :=
  match e with
  | failed_to_open path => "failed to open " +:+ path
  | size_not_aligned path => "file size not aligned to dtype for " +:+ path
  | failed_to_read path => "failed to read " +:+ path
  | create_directories_failed _ message => message
  | vector_length_error => "cannot create std::vector larger than max_size()"
  | bad_alloc => "std::bad_alloc"
  | failed_to_open_for_write path => "failed to open " +:+ path +:+ " for write"
  | failed_to_write path => "failed to write " +:+ path
  | shapes_required => "--shapes is required"
  | shapes_too_few => "shapes must include at least two input shapes"
  | shape_k_mismatch => "shape mismatch: input0 k != input1 k"
  | output_shape_mismatch => "output shape does not match matmul result"
  | input_sizes_mismatch => "input sizes do not match shapes"
  | input_sizes_differ => "input sizes differ"
  | unsupported_dtype tag => "unsupported dtype: " +:+ tag
  end.

(** The error kinds of the specification (section 7), and one for the
    exceptions of the standard library that it does not name. *)
Inductive error_kind : Type :=
  | IOError
  | SizeMismatchError
  | UnsupportedDtypeError
  | ShapeFormatError
  | ShapeMismatchError
  | LibraryError.

Definition kind_of (e : error) : error_kind :=
  match e with
  | failed_to_open _ | failed_to_read _ | create_directories_failed _ _
  | failed_to_open_for_write _ | failed_to_write _ => IOError
  | vector_length_error | bad_alloc => LibraryError
  | size_not_aligned _ | input_sizes_mismatch | input_sizes_differ => SizeMismatchError
  | unsupported_dtype _ => UnsupportedDtypeError
  | shapes_required | shapes_too_few => ShapeFormatError
  | shape_k_mismatch | output_shape_mismatch => ShapeMismatchError
  end.

(** What a computation ends in: a value, an exception, or undefined
    behaviour (an access outside a buffer). *)
Inductive outcome (A : Type) : Type :=
  | Ok (a : A)
  | Throw (e : error)
  | Undefined.
Arguments Ok {A} a.
Arguments Throw {A} e.
Arguments Undefined {A}.

#[global] Instance outcome_ret : MRet outcome := fun A a => Ok a.
#[global] Instance outcome_bind : MBind outcome := fun A B f m =>
  match m with
  | Ok a => f a
  | Throw e => Throw e
  | Undefined => Undefined
  end.

(** [v[i]] on a [std::vector]: unchecked. *)
Definition vec_at {A} (v : list A) (i : nat) : outcome A :=
  match v !! i with
  | Some x => Ok x
  | None => Undefined
  end.

(** ** The shape-specification parser (matmul_runner.cpp) *)

(** [c >= '0' && c <= '9'] *)
Definition is_digit (c : ascii) : bool :=
  (48 <=? N_of_ascii c)%N && (N_of_ascii c <=? 57)%N.

(** [static_cast<int64_t>(c - '0')] *)
Definition digit_value (c : ascii) : Z := Z.of_N (N_of_ascii c) - 48.

(** The three locals of [extract_numbers]. *)
Record scan : Type := Scan {
  values : list Z;
  current : Z;
  in_number : bool
}.

(** The body of the [for (char c : text)] loop. *)
Definition scan_char (st : scan) (c : ascii) : scan :=
  if is_digit c then
    Scan (values st) (Int64.add (Int64.mul (current st) 10) (digit_value c)) true
  else if in_number st then
    Scan (values st ++ [current st]) 0 false
  else st.

(** The trailing [if (in_number) values.push_back(current)]. *)
Definition scan_finish (st : scan) : list Z :=
  if in_number st then values st ++ [current st] else values st.

Definition extract_numbers (text : string) : list Z :=
  scan_finish (fold_left scan_char (list_ascii_of_string text) (Scan [] 0 false)).

Record MatmulShape : Type := Shape {
  shape_m : Z;
  shape_k : Z;
  shape_n : Z
}.

Definition parse_shapes (shapes_json : string) : outcome MatmulShape :=
  let nums := extract_numbers shapes_json in
  if (length nums <? 4)%nat then Throw shapes_too_few else
  m ← vec_at nums 0;
  k ← vec_at nums 1;
  k2 ← vec_at nums 2;
  n ← vec_at nums 3;
  if negb (k =? k2) then Throw shape_k_mismatch else
  (if (6 <=? length nums)%nat then
     out_m ← vec_at nums 4;
     out_n ← vec_at nums 5;
     if negb (out_m =? m) || negb (out_n =? n)
     then Throw output_shape_mismatch else Ok ()
   else Ok ());;
  Ok (Shape m k n).

(** ** Sizes and element types *)

Module SizeT.

Definition modulus : N := (2 ^ 64)%N.

Definition wrap (n : N) : N := (n mod modulus)%N.
Definition add (x y : N) : N := wrap (x + y).
Definition mul (x y : N) : N := wrap (x * y).

(** [static_cast<size_t>(z)] for [z] of type [int64_t]. *)
Definition of_int64 (z : Z) : N := Z.to_N (z mod 2 ^ 64).

End SizeT.

Module Int32.

Definition wrap (z : Z) : Z := (z + 2 ^ 31) mod 2 ^ 32 - 2 ^ 31.

End Int32.

(** What the templates [read_file<T>], [write_file<T>], [run_matmul<T>] and
    [matmul_kernel<T>] use of their parameter [T]: its size, its object
    representation (the bytes [reinterpret_cast<char*>] exposes), the value
    [static_cast<T>(0)] and the operators [+] and [*]. *)
Class ElemType (T : Type) : Type := {
  sizeof : nat;
  to_bytes : T -> list byte;
  of_bytes : list byte -> T;
  elt_zero : T;
  elt_add : T -> T -> T;
  elt_mul : T -> T -> T
}.

(** The facts about an object representation that the codec relies on. *)
Class ElemTypeLaws (T : Type) `{ElemType T} : Prop := {
  sizeof_pos : (0 < sizeof)%nat;
  to_bytes_length : forall x : T, length (to_bytes x) = sizeof;
  of_to_bytes : forall x : T, of_bytes (to_bytes x) = x;
  to_of_bytes : forall bs : list byte, length bs = sizeof -> to_bytes (of_bytes bs) = bs
}.

(** A 32-bit object is its four bytes, in the order they lie in memory. *)
Inductive int32_t : Type := mk_int32 (b0 b1 b2 b3 : byte).
Inductive float : Type := mk_float (b0 b1 b2 b3 : byte).

Definition byte_val (b : byte) : Z := Z.of_N (Byte.to_N b).

Definition byte_of_Z (z : Z) : byte :=
  match Byte.of_N (Z.to_N (z mod 256)) with
  | Some b => b
  | None => x00
  end.

(** The unsigned 32-bit number held by four bytes, least significant
    first (the byte order of the usual targets; the codec itself never
    depends on it). *)
Definition bits_of_bytes (b0 b1 b2 b3 : byte) : Z :=
  byte_val b0 + 2 ^ 8 * byte_val b1 + 2 ^ 16 * byte_val b2 + 2 ^ 24 * byte_val b3.

Definition bytes_of_bits (u : Z) : list byte :=
  [byte_of_Z u; byte_of_Z (u / 2 ^ 8); byte_of_Z (u / 2 ^ 16); byte_of_Z (u / 2 ^ 24)].

Definition int32_val (x : int32_t) : Z :=
  let 'mk_int32 b0 b1 b2 b3 := x in Int32.wrap (bits_of_bytes b0 b1 b2 b3).

Definition int32_of_bytes (bs : list byte) : int32_t :=
  match bs with
  | [b0; b1; b2; b3] => mk_int32 b0 b1 b2 b3
  | _ => mk_int32 x00 x00 x00 x00
  end.

Definition int32_of_Z (z : Z) : int32_t := int32_of_bytes (bytes_of_bits (z mod 2 ^ 32)).

#[global] Instance int32_elem : ElemType int32_t := {
  sizeof := 4;
  to_bytes := fun '(mk_int32 b0 b1 b2 b3) => [b0; b1; b2; b3];
  of_bytes := int32_of_bytes;
  elt_zero := int32_of_Z 0;
  elt_add := fun x y => int32_of_Z (int32_val x + int32_val y);
  elt_mul := fun x y => int32_of_Z (int32_val x * int32_val y)
}.

(** IEEE 754 binary32: 24 bits of precision, exponents below 128. The
    arithmetic is that of [SpecFloat] (round to nearest, ties to even), one
    rounding for each product and each sum. The bits of a NaN result are
    those of the SSE instructions of x86-64: a NaN operand comes out with
    its sign and payload and the quiet bit set, the left operand before
    the right one, and an invalid operation (infinity times zero, the
    difference of two infinities) gives [0xffc00000]. *)
Definition float_to_sf (x : float) : spec_float :=
  let 'mk_float b0 b1 b2 b3 := x in
  let bits := bits_of_bytes b0 b1 b2 b3 in
  let s := Z.testbit bits 31 in
  let e := (bits / 2 ^ 23) mod 2 ^ 8 in
  let m := bits mod 2 ^ 23 in
  if e =? 0 then
    if m =? 0 then S754_zero s else S754_finite s (Z.to_pos m) (-149)
  else if e =? 255 then
    if m =? 0 then S754_infinity s else S754_nan
  else S754_finite s (Z.to_pos (m + 2 ^ 23)) (e - 150).

Definition float_of_bytes (bs : list byte) : float :=
  match bs with
  | [b0; b1; b2; b3] => mk_float b0 b1 b2 b3
  | _ => mk_float x00 x00 x00 x00
  end.

Definition float_of_sf (f : spec_float) : float :=
  let sign (s : bool) : Z := if s then 2 ^ 31 else 0 in
  float_of_bytes (bytes_of_bits
    match f with
    | S754_zero s => sign s
    | S754_infinity s => sign s + 255 * 2 ^ 23
    | S754_nan => 2 ^ 31 + 255 * 2 ^ 23 + 2 ^ 22
    | S754_finite s m e =>
        if Z.pos m <? 2 ^ 23 then sign s + Z.pos m
        else sign s + (e + 150) * 2 ^ 23 + (Z.pos m - 2 ^ 23)
    end).

Definition float_bits (x : float) : Z :=
  let 'mk_float b0 b1 b2 b3 := x in bits_of_bytes b0 b1 b2 b3.

Definition float_is_nan (x : float) : bool :=
  match float_to_sf x with
  | S754_nan => true
  | _ => false
  end.

(** A NaN with its quiet bit set. *)
Definition float_quiet (x : float) : float :=
  float_of_bytes (bytes_of_bits (Z.lor (float_bits x) (2 ^ 22))).

(** [x op y] on two [float]s. *)
Definition float_arith (op : spec_float -> spec_float -> spec_float) (x y : float) : float :=
  if float_is_nan x then float_quiet x
  else if float_is_nan y then float_quiet y
  else float_of_sf (op (float_to_sf x) (float_to_sf y)).

#[global] Instance float_elem : ElemType float := {
  sizeof := 4;
  to_bytes := fun '(mk_float b0 b1 b2 b3) => [b0; b1; b2; b3];
  of_bytes := float_of_bytes;
  elt_zero := float_of_sf (S754_zero false);
  elt_add := float_arith (SFadd 24 128);
  elt_mul := float_arith (SFmul 24 128)
}.

(** ** The matmul kernel (matmul_kernel.cpp) *)

(** [p[idx] = v] through a pointer into a buffer. *)
Definition vec_set {A} (v : list A) (i : nat) (x : A) : outcome (list A) :=
  if (i <? length v)%nat then Ok (<[i := x]> v) else Undefined.

(** [for (std::size_t i = first; ...; ++i) body], run for [count] rounds. *)
Fixpoint for_loop {S} (count : nat) (i : N) (body : N -> S -> outcome S) (s : S)
  : outcome S :=
  match count with
  | O => Ok s
  | Datatypes.S count' => s' ← body i s; for_loop count' (N.succ i) body s'
  end.

Definition matmul_kernel {T} `{ElemType T} (a b c : list T) (m k n : N)
  : outcome (list T) :=
  for_loop (N.to_nat m) 0%N (fun i c =>
    for_loop (N.to_nat n) 0%N (fun j c =>
      acc ← for_loop (N.to_nat k) 0%N (fun kk acc =>
        x ← vec_at a (N.to_nat (SizeT.add (SizeT.mul i k) kk));
        y ← vec_at b (N.to_nat (SizeT.add (SizeT.mul kk n) j));
        Ok (elt_add acc (elt_mul x y))) elt_zero;
      vec_set c (N.to_nat (SizeT.add (SizeT.mul i n) j)) acc) c) c.

(** [std::vector<T>::max_size()]: [PTRDIFF_MAX / sizeof(T)]. *)
Definition vector_max_size {T} `{ElemType T} : N := ((2 ^ 63 - 1) / N.of_nat sizeof)%N.

(** The check of the constructors of [std::vector<T>] on their count,
    made before any memory is asked for. *)
Definition check_init_len {T} `{ElemType T} (count : N) : outcome unit :=
  if (vector_max_size (T := T) <? count)%N then Throw vector_length_error else Ok ().

(** [std::vector<T> v(count, static_cast<T>(0))]. A count above
    [max_size()] is refused with [std::length_error]; otherwise, unless
    the count is zero, the elements' bytes are asked of [operator new],
    which throws [std::bad_alloc] when it refuses ([refused] says which
    sizes it does). *)
Definition new_vector {T} `{ElemType T} (refused : N -> bool) (count : N)
  : outcome (list T) :=
  check_init_len (T := T) count;;
  if (0 <? count)%N && refused (count * N.of_nat sizeof)%N then Throw bad_alloc
  else Ok (replicate (N.to_nat count) elt_zero).

(** The output buffer of [run_matmul] and the kernel call on it:
    [std::vector<T> out(static_cast<size_t>(shape.m * shape.n), 0)]
    followed by [matmul_kernel<T>(a.data(), b.data(), out.data(), ...)]. *)
Definition matmul_output {T} `{ElemType T} (refused : N -> bool) (shape : MatmulShape)
    (a b : list T) : outcome (list T) :=
  out ← new_vector refused (SizeT.of_int64 (Int64.mul (shape_m shape) (shape_n shape)));
  matmul_kernel a b out (SizeT.of_int64 (shape_m shape)) (SizeT.of_int64 (shape_k shape))
                (SizeT.of_int64 (shape_n shape)).

(** ** Files and the runner (matmul_runner.cpp) *)

(** What an invocation does to its environment, in order. *)
Inductive event : Type :=
  | ev_open_read (path : string)
  | ev_alloc_output (count : N)
  | ev_kernel
  | ev_create_directories (path : string)
  | ev_open_write (path : string).

(** The environment of an invocation:
    - the regular files that can be opened, each under the path it is
      opened by (the map says nothing of the other spellings and links
      under which the file system knows the same file);
    - the directories, and whatever else opens for reading without being
      a regular file: no byte can be read from them, and with each comes
      the offset that the file system reports for its end ([-1] when it
      cannot seek there);
    - what the file system refuses: creating the parent directories of a
      path, and then the message of the exception that the library throws
      (in libstdc++, "filesystem error: cannot create directories: ", the
      reason, and the directory in brackets); opening a path for writing;
      storing more than so many bytes of a path;
    - the sizes, in bytes, that [operator new] refuses;
    - the events so far. *)
Record world : Type := World {
  files : gmap string (list byte);
  directories : string -> option Z;
  mkdir_fails : string -> bool;
  mkdir_what : string -> string;
  open_write_fails : string -> bool;
  write_limit : string -> option nat;
  new_fails : N -> bool;
  trace : list event
}.

Definition M (A : Type) : Type := world -> outcome A * world.

#[global] Instance M_ret : MRet M := fun A a w => (Ok a, w).
#[global] Instance M_bind : MBind M := fun A B f m w =>
  match m w with
  | (Ok a, w') => f a w'
  | (Throw e, w') => (Throw e, w')
  | (Undefined, w') => (Undefined, w')
  end.

Definition throw {A} (e : error) : M A := fun w => (Throw e, w).

Definition lift {A} (o : outcome A) : M A := fun w => (o, w).

Definition record_event (e : event) (w : world) : world :=
  World (files w) (directories w) (mkdir_fails w) (mkdir_what w) (open_write_fails w)
        (write_limit w) (new_fails w) (trace w ++ [e]).

Definition with_file (path : string) (content : list byte) (w : world) : world :=
  World (<[path := content]> (files w)) (directories w) (mkdir_fails w) (mkdir_what w)
        (open_write_fails w) (write_limit w) (new_fails w) (trace w).

Definition log (e : event) : M unit := fun w => (Ok (), record_event e w).

Definition set_file (path : string) (content : list byte) : M unit := fun w =>
  (Ok (), with_file path content w).

(** The memory of a [std::vector<T>]: its elements' bytes, one after the other. *)
Definition mem_of {T} `{ElemType T} (data : list T) : list byte :=
  concat (map to_bytes data).

(** The [count] elements that lie in [mem]. *)
Fixpoint elems_of {T} `{ElemType T} (count : nat) (mem : list byte) : list T :=
  match count with
  | O => []
  | S count' => of_bytes (take sizeof mem) :: elems_of count' (drop sizeof mem)
  end.

(** [data] after [bytes] have been copied to the start of its memory. *)
Definition store_bytes {T} `{ElemType T} (data : list T) (bytes : list byte) : list T :=
  elems_of (length data) (bytes ++ drop (length bytes) (mem_of data)).

(** A [std::ifstream]: the bytes that can be read through it, and, when
    it is open on a directory, the offset reported for the end. *)
Record ifstream : Type := Ifstream {
  is_content : list byte;
  is_pos : nat;
  is_fail : bool;
  is_directory : option Z
}.

(** [std::ifstream file(path, std::ios::binary)]: opening a directory for
    reading succeeds. *)
Definition ifstream_open (path : string) : M ifstream := fun w =>
  (Ok match files w !! path with
      | Some content => Ifstream content 0 false None
      | None =>
          match directories w path with
          | Some end_offset => Ifstream [] 0 false (Some end_offset)
          | None => Ifstream [] 0 true None
          end
      end, w).

(** [file.seekg(0, std::ios::end)], [file.tellg()], [file.seekg(0, std::ios::beg)] *)
Definition seekg_end (file : ifstream) : ifstream :=
  Ifstream (is_content file) (length (is_content file)) (is_fail file) (is_directory file).
Definition tellg (file : ifstream) : nat := is_pos file.
Definition seekg_beg (file : ifstream) : ifstream :=
  Ifstream (is_content file) 0 (is_fail file) (is_directory file).

(** [file.read(p, n)]: the bytes obtained, and the stream, which fails when
    they are fewer than [n]. *)
Definition ifstream_read (file : ifstream) (n : nat) : list byte * ifstream :=
  let got := take n (drop (is_pos file) (is_content file)) in
  (got, Ifstream (is_content file) (is_pos file + length got)
                 (is_fail file || (length got <? n)%nat) (is_directory file)).

(** The statements of [read_file<T>] after the stream has opened on a
    directory, [size] being what [file.tellg()] gave at the end: the
    remainder of the signed division, the count
    [static_cast<size_t>(size) / sizeof(T)] of the buffer, and a read
    that obtains nothing: it fails unless it was asked for nothing. *)
Definition read_directory {T} `{ElemType T} (path : string) (size : Z) : M (list T) :=
  if negb (Z.rem size (Z.of_nat sizeof) =? 0) then throw (size_not_aligned path) else
  let count := (SizeT.of_int64 size / N.of_nat sizeof)%N in
  lift (check_init_len (T := T) count);;
  let data := replicate (N.to_nat count) elt_zero in
  if negb (size =? 0) then throw (failed_to_read path) else
  mret data.

(** [read_file<T>]; the copies in the two op_runner.cpp are the same
    function. On a regular file the buffer is as large as the file: its
    count cannot exceed [max_size()], and the memory for it is taken to
    be granted. *)
Definition read_file {T} `{ElemType T} (path : string) : M (list T) :=
  log (ev_open_read path);;
  file ← ifstream_open path;
  if is_fail file then throw (failed_to_open path) else
  match is_directory file with Some size => read_directory path size | None =>
  let file := seekg_end file in
  let size := tellg file in
  let file := seekg_beg file in
  if negb (size mod sizeof =? 0)%nat then throw (size_not_aligned path) else
  let data := replicate (size / sizeof)%nat elt_zero in
  let '(got, file) := ifstream_read file size in
  let data := store_bytes data got in
  if is_fail file then throw (failed_to_read path) else
  mret data
  end.

(** [std::filesystem::create_directories(std::filesystem::path(path).parent_path())] *)
Definition create_directories_for (path : string) : M unit := fun w =>
  if mkdir_fails w path
  then (Throw (create_directories_failed path (mkdir_what w path)), w)
  else log (ev_create_directories path) w.

(** The size from which [file.write] on a [std::ofstream] hands its bytes
    to the file system at once; a shorter write only fills the buffer of
    the stream. *)
Definition ofstream_chunk : nat := 1024.

(** The file system stores of [bytes] what it takes, and tells whether
    that was all of them. *)
Definition store (path : string) (bytes : list byte) : M bool := fun w =>
  let taken := match write_limit w path with Some n => take n bytes | None => bytes end in
  (Ok (length bytes <=? length taken)%nat, with_file path taken w).

(** [file.write(p, n)] on the [std::ofstream] of [write_file<T>], the test
    [if (!file)] after it and the end of the function. A write of at
    least [ofstream_chunk] bytes goes to the file system at once and
    leaves the stream bad when it comes short. A shorter one stays in the
    buffer: the stream is good at the test, and the destructor, which
    flushes the buffer, drops what the file system does not take. *)
Definition ofstream_write_and_close (path : string) (bytes : list byte) : M unit :=
  if (ofstream_chunk <=? length bytes)%nat then
    stored ← store path bytes;
    if stored : bool then mret () else throw (failed_to_write path)
  else
    store path bytes;;
    mret ().

(** [write_file<T>] of matmul_runner.cpp. *)
Definition write_file {T} `{ElemType T} (path : string) (data : list T) : M unit :=
  create_directories_for path;;
  refused ← (fun w => (Ok (open_write_fails w path), w));
  if refused : bool then throw (failed_to_open_for_write path) else
  log (ev_open_write path);;
  set_file path [];;
  ofstream_write_and_close path (take (length data * sizeof)%nat (mem_of data)).

Record Options : Type := mkOptions {
  dtype : string;
  input0 : string;
  input1 : string;
  output0 : string;
  shapes_json : string
}.

Definition count_a (shape : MatmulShape) : N :=
  SizeT.of_int64 (Int64.mul (shape_m shape) (shape_k shape)).
Definition count_b (shape : MatmulShape) : N :=
  SizeT.of_int64 (Int64.mul (shape_k shape) (shape_n shape)).
Definition count_out (shape : MatmulShape) : N :=
  SizeT.of_int64 (Int64.mul (shape_m shape) (shape_n shape)).

Definition run_matmul (T : Type) `{ElemType T} (opts : Options) (shape : MatmulShape)
  : M unit :=
  a ← read_file (T := T) (input0 opts);
  b ← read_file (T := T) (input1 opts);
  if negb (N.of_nat (length a) =? count_a shape)%N
     || negb (N.of_nat (length b) =? count_b shape)%N
  then throw input_sizes_mismatch else
  log (ev_alloc_output (count_out shape));;
  refused ← (fun w => (Ok (new_fails w), w));
  out ← lift (new_vector refused (count_out shape));
  log ev_kernel;;
  out ← lift (matmul_kernel a b out (SizeT.of_int64 (shape_m shape))
                            (SizeT.of_int64 (shape_k shape))
                            (SizeT.of_int64 (shape_n shape)));
  write_file (output0 opts) out.

(** The datatype tags that [main] dispatches on. *)
Inductive DtypeTag : Type := Float32 | Int32.

(** The [if (opts.dtype == "float32") ... else if (opts.dtype == "int32")
    ... else throw] chain of [main], in both runners. *)
Definition resolve_dtype (tag : string) : outcome DtypeTag :=
  if String.eqb tag "float32" then Ok Float32
  else if String.eqb tag "int32" then Ok Int32
  else Throw (unsupported_dtype tag).

(** The [try] block of [main], given the parsed command line. *)
Definition main_try (opts : Options) : M unit :=
  if String.eqb (shapes_json opts) "" then throw shapes_required else
  shape ← lift (parse_shapes (shapes_json opts));
  tag ← lift (resolve_dtype (dtype opts));
  match tag with
  | Float32 => run_matmul float opts shape
  | Int32 => run_matmul int32_t opts shape
  end.

(** [main]: the exit status, and the line written to [std::cerr] on failure. *)
Definition main (opts : Options) : M (Z * option string) := fun w =>
  match main_try opts w with
  | (Ok _, w') => (Ok (0, None), w')
  | (Throw e, w') => (Ok (1, Some ("matmul_runner failed: " +:+ what e)), w')
  | (Undefined, w') => (Undefined, w')
  end.

(** ** The elementwise runner (operator_cpp/operator/op_runner.cpp) *)

Module OpRunner.

Record Options : Type := mkOptions {
  dtype : string;
  input0 : string;
  input1 : string;
  output : string
}.

(** [write_file<T>] of op_runner.cpp: as in matmul_runner.cpp, without the
    creation of the parent directories. *)
Definition write_file {T} `{ElemType T} (path : string) (data : list T) : M unit :=
  refused ← (fun w => (Ok (open_write_fails w path), w));
  if refused : bool then throw (failed_to_open_for_write path) else
  log (ev_open_write path);;
  set_file path [];;
  ofstream_write_and_close path (take (length data * sizeof)%nat (mem_of data)).

Definition add_vectors {T} `{ElemType T} (a b : list T) : outcome (list T) :=
  if negb (length a =? length b)%nat then Throw input_sizes_differ else
  let out := replicate (length a) elt_zero in
  for_loop (length a) 0%N (fun i out =>
    x ← vec_at a (N.to_nat i);
    y ← vec_at b (N.to_nat i);
    vec_set out (N.to_nat i) (elt_add x y)) out.

(** The body of either branch of [main]: read both inputs, add, write. *)
Definition run_add (T : Type) `{ElemType T} (opts : Options) : M unit :=
  a ← read_file (T := T) (input0 opts);
  b ← read_file (T := T) (input1 opts);
  out ← lift (add_vectors a b);
  write_file (output opts) out.

Definition main_try (opts : Options) : M unit :=
  create_directories_for (output opts);;
  tag ← lift (resolve_dtype (dtype opts));
  match tag with
  | Float32 => run_add float opts
  | Int32 => run_add int32_t opts
  end.

End OpRunner.

(** ** The specification's vocabulary *)

(** The pieces of a text between separators: the digits up to the first
    separator, and the pieces after it. *)
Fixpoint split_at_separators (s : list ascii) : list ascii * list (list ascii) :=
  match s with
  | [] => ([], [])
  | c :: s' =>
      let '(p, ps) := split_at_separators s' in
      if is_digit c then (c :: p, ps) else ([], p :: ps)
  end.

Definition nonempty {A} (l : list A) : bool :=
  match l with
  | [] => false
  | _ :: _ => true
  end.

(** The maximal runs of decimal digits of a text, left to right. *)
Definition digit_runs (s : list ascii) : list (list ascii) :=
  let '(p, ps) := split_at_separators s in List.filter nonempty (p :: ps).

(** What makes [runs] the maximal digit runs of a text: the text is
    separators, a run, and a rest that does not start with a digit,
    whose runs are the remaining ones. *)
Inductive maximal_runs : list ascii -> list (list ascii) -> Prop :=
  | runs_none (seps : list ascii) :
      Forall (fun c => is_digit c = false) seps ->
      maximal_runs seps []
  | runs_next (seps run rest : list ascii) (runs : list (list ascii)) :
      Forall (fun c => is_digit c = false) seps ->
      run <> [] ->
      Forall (fun c => is_digit c = true) run ->
      (forall c rest', rest = c :: rest' -> is_digit c = false) ->
      maximal_runs rest runs ->
      maximal_runs (seps ++ run ++ rest) (run :: runs).

(** A run's value as [extract_numbers] accumulates it,
    [value = value * 10 + digit] in [int64_t]. *)
Definition run_value (run : list ascii) : Z :=
  fold_left (fun value c => Int64.add (Int64.mul value 10) (digit_value c)) run 0.

(** The number a run of digits denotes in decimal. *)
Definition decimal_value (run : list ascii) : Z :=
  fold_left (fun value c => value * 10 + digit_value c) run 0.

(** The sum over [p] from [0] to [k-1] of [a[i*k+p] * b[p*n+j]], every
    product and sum taken in [T], in the order of the kernel's loop. *)
Definition dot_product {T} `{ElemType T} (a b : list T) (k n i j : nat) : T :=
  fold_left (fun acc p => elt_add acc (elt_mul (nth (i * k + p) a elt_zero)
                                               (nth (p * n + j) b elt_zero)))
            (seq 0 k) elt_zero.

(** [static_cast<float>(z)] *)
Definition float_of_Z (z : Z) : float := float_of_sf (binary_normalize 24 128 z 0 false).

(** An outcome that is an exception of the given kind. *)
Definition fails_with {A} (o : outcome A) (kind : error_kind) : Prop :=
  exists e, o = Throw e /\ kind_of e = kind.

(** ** Environments for the examples *)

(** A file system that refuses nothing and holds the given files. *)
Definition plain_world (fs : gmap string (list byte)) : world :=
  World fs (fun _ => None) (fun _ => false) (fun _ => "") (fun _ => false) (fun _ => None)
        (fun _ => false) [].

Definition example_inputs : gmap string (list byte) :=
  <["data/input0.bin" := mem_of (map int32_of_Z [1; 2; 3; 4])]>
  (<["data/input1.bin" := mem_of (map int32_of_Z [1; 0; 0; 1])]>
  (<["data/empty.bin" := []]>
  (<["data/odd.bin" := [x01; x02; x03]]> ∅))).

Definition example_options (shapes : string) : Options :=
  mkOptions "int32" "data/input0.bin" "data/input1.bin" "out/output0.bin" shapes.

(** The end-to-end scenario of the specification: two float32 inputs of
    four values each. *)
Definition scenario_inputs : gmap string (list byte) :=
  <["data/input0.bin" := mem_of (map float_of_Z [1; 2; 3; 4])]>
  (<["data/input1.bin" := mem_of (map float_of_Z [1; 0; 0; 1])]> ∅).

Definition scenario_options : Options :=
  mkOptions "float32" "data/input0.bin" "data/input1.bin" "out/output0.bin" "2x2,2x2".

Definition empty_inputs_options : Options :=
  mkOptions "int32" "data/empty.bin" "data/empty.bin" "out/output0.bin"
            "4294967296,4294967296,4294967296,0".

Definition no_inner_dimension_options : Options :=
  mkOptions "int32" "data/empty.bin" "data/empty.bin" "out/output0.bin"
            "4294967296,0,0,4294967296".

(** ** Command lines *)

(** [Options opt{}]: the defaults of matmul_runner.cpp. *)
Definition default_options : Options :=
  mkOptions "float32" "data/input0.bin" "data/input1.bin" "out/output0.bin" "".

(** The loop of [parse_args] on the arguments from [argv[i]] on. A flag
    takes the next argument as its value, [argv[++i]], only when there is
    one ([i + 1 < argc]); every other argument is passed over. *)
Fixpoint parse_args_from (args : list string) (opt : Options) : Options :=
  match args with
  | [] => opt
  | arg :: rest =>
      match rest with
      | value :: rest' =>
          if String.eqb arg "--dtype" || String.eqb arg "-t" then
            parse_args_from rest'
              (mkOptions value (input0 opt) (input1 opt) (output0 opt) (shapes_json opt))
          else if String.eqb arg "--input0" then
            parse_args_from rest'
              (mkOptions (dtype opt) value (input1 opt) (output0 opt) (shapes_json opt))
          else if String.eqb arg "--input1" then
            parse_args_from rest'
              (mkOptions (dtype opt) (input0 opt) value (output0 opt) (shapes_json opt))
          else if String.eqb arg "--output0" then
            parse_args_from rest'
              (mkOptions (dtype opt) (input0 opt) (input1 opt) value (shapes_json opt))
          else if String.eqb arg "--shapes" then
            parse_args_from rest'
              (mkOptions (dtype opt) (input0 opt) (input1 opt) (output0 opt) value)
          else parse_args_from rest opt
      | [] => opt
      end
  end.

(** [parse_args(argc, argv)], with [argv] the list of all [argc]
    arguments: the loop starts after [argv[0]]. *)
Definition parse_args (argv : list string) : Options :=
  parse_args_from (tail argv) default_options.

(** [main(argc, argv)] of matmul_runner.cpp. *)
Definition program (argv : list string) : M (Z * option string) :=
  main (parse_args argv).

(** The rest of operator_cpp/operator/op_runner.cpp. *)
Module AddRunner.

Definition default_options : OpRunner.Options :=
  OpRunner.mkOptions "float32" "input/input0.bin" "input/input1.bin" "output/output0.bin".

Fixpoint parse_args_from (args : list string) (opt : OpRunner.Options) : OpRunner.Options :=
  match args with
  | [] => opt
  | arg :: rest =>
      match rest with
      | value :: rest' =>
          if String.eqb arg "--dtype" || String.eqb arg "-t" then
            parse_args_from rest'
              (OpRunner.mkOptions value (OpRunner.input0 opt) (OpRunner.input1 opt)
                                  (OpRunner.output opt))
          else if String.eqb arg "--input0" then
            parse_args_from rest'
              (OpRunner.mkOptions (OpRunner.dtype opt) value (OpRunner.input1 opt)
                                  (OpRunner.output opt))
          else if String.eqb arg "--input1" then
            parse_args_from rest'
              (OpRunner.mkOptions (OpRunner.dtype opt) (OpRunner.input0 opt) value
                                  (OpRunner.output opt))
          else if String.eqb arg "--output" then
            parse_args_from rest'
              (OpRunner.mkOptions (OpRunner.dtype opt) (OpRunner.input0 opt)
                                  (OpRunner.input1 opt) value)
          else parse_args_from rest opt
      | [] => opt
      end
  end.

Definition parse_args (argv : list string) : OpRunner.Options :=
  parse_args_from (tail argv) default_options.

(** [main(argc, argv)] of op_runner.cpp: the exit status and the line on
    [std::cerr]. *)
Definition program (argv : list string) : M (Z * option string) := fun w =>
  match OpRunner.main_try (parse_args argv) w with
  | (Ok _, w') => (Ok (0, None), w')
  | (Throw e, w') => (Ok (1, Some ("add_custom failed: " +:+ what e)), w')
  | (Undefined, w') => (Undefined, w')
  end.

End AddRunner.

(** ** The squaring runner (custom_op_with_plugins/operator/op_runner.cpp)

    Its [read_file] and [write_file] are those of operator_cpp's
    op_runner.cpp, line for line. *)
Module SquareRunner.

Record Options : Type := mkOptions {
  dtype : string;
  input : string;
  output : string
}.

Definition default_options : Options :=
  mkOptions "float32" "input/input0.bin" "output/output0.bin".

Fixpoint parse_args_from (args : list string) (opt : Options) : Options :=
  match args with
  | [] => opt
  | arg :: rest =>
      match rest with
      | value :: rest' =>
          if String.eqb arg "--dtype" || String.eqb arg "-t" then
            parse_args_from rest' (mkOptions value (input opt) (output opt))
          else if String.eqb arg "--input" then
            parse_args_from rest' (mkOptions (dtype opt) value (output opt))
          else if String.eqb arg "--output" then
            parse_args_from rest' (mkOptions (dtype opt) (input opt) value)
          else parse_args_from rest opt
      | [] => opt
      end
  end.

Definition parse_args (argv : list string) : Options :=
  parse_args_from (tail argv) default_options.

Definition square {T} `{ElemType T} (input : list T) : outcome (list T) :=
  let out := replicate (length input) elt_zero in
  for_loop (length input) 0%N (fun i out =>
    x ← vec_at input (N.to_nat i);
    y ← vec_at input (N.to_nat i);
    vec_set out (N.to_nat i) (elt_mul x y)) out.

(** The body of either branch of [main]: read the input, square, write. *)
Definition run_square (T : Type) `{ElemType T} (opts : Options) : M unit :=
  data ← read_file (T := T) (input opts);
  out ← lift (square data);
  OpRunner.write_file (output opts) out.

Definition main_try (opts : Options) : M unit :=
  create_directories_for (output opts);;
  tag ← lift (resolve_dtype (dtype opts));
  match tag with
  | Float32 => run_square float opts
  | Int32 => run_square int32_t opts
  end.

Definition program (argv : list string) : M (Z * option string) := fun w =>
  match main_try (parse_args argv) w with
  | (Ok _, w') => (Ok (0, None), w')
  | (Throw e, w') => (Ok (1, Some ("custom_square failed: " +:+ what e)), w')
  | (Undefined, w') => (Undefined, w')
  end.

End SquareRunner.

(** The value an option ends with: that of the last flag-value pair that
    names one of [flags], or none. A command line is taken here as a list
    of items, a recognised flag with its value or a lone argument. *)
Inductive arg_item : Type :=
  | flag_value (flag value : string)
  | lone (arg : string).

Definition item_args (item : arg_item) : list string :=
  match item with
  | flag_value flag value => [flag; value]
  | lone arg => [arg]
  end.

Definition last_value (flags : list string) (items : list arg_item) : option string :=
  fold_left (fun found item =>
    match item with
    | flag_value flag value => if bool_decide (flag ∈ flags) then Some value else found
    | lone _ => found
    end) items None.

(** The flags of matmul_runner.cpp. *)
Definition matmul_flags : list string :=
  ["--dtype"; "-t"; "--input0"; "--input1"; "--output0"; "--shapes"].

Definition matmul_item (item : arg_item) : Prop :=
  match item with
  | flag_value flag _ => flag ∈ matmul_flags
  | lone arg => arg ∉ matmul_flags
  end.

#[global] Instance matmul_item_dec (item : arg_item) : Decision (matmul_item item).
Proof. destruct item; cbn; apply _. Defined.

(** * Properties *)

(** ** Fixed-width arithmetic *)

Lemma int64_wrap_in_range z : Int64.in_range (Int64.wrap z).
Proof.
  unfold Int64.in_range, Int64.wrap, Int64.modulus, Int64.half_modulus.
  pose proof (Z.mod_pos_bound (z + 2 ^ 63) (2 ^ 64)). lia.
Qed.

Lemma int64_wrap_id z : Int64.in_range z -> Int64.wrap z = z.
Proof.
  unfold Int64.in_range, Int64.wrap, Int64.modulus, Int64.half_modulus. intros Hz.
  rewrite Z.mod_small; lia.
Qed.

Lemma int64_wrap_mod z : Int64.wrap z mod 2 ^ 64 = z mod 2 ^ 64.
Proof.
  unfold Int64.wrap, Int64.modulus, Int64.half_modulus.
  rewrite Zminus_mod, Zmod_mod, <- Zminus_mod. f_equal. lia.
Qed.

(** ** The digit scanner *)

Lemma digit_value_range c : is_digit c = true -> 0 <= digit_value c <= 9.
Proof.
  unfold is_digit, digit_value. intros [H1 H2]%andb_prop.
  apply N.leb_le in H1, H2. lia.
Qed.

(** The scanner against the pieces of the text: from any state of the
    loop, the numbers pushed are the value of the piece in progress
    followed by the values of the later non-empty pieces. *)
Lemma scan_pieces s : forall st,
  (in_number st = false -> current st = 0) ->
  scan_finish (fold_left scan_char s st) =
    values st
    ++ (if in_number st || nonempty (fst (split_at_separators s))
        then [fold_left (fun value c => Int64.add (Int64.mul value 10) (digit_value c))
                        (fst (split_at_separators s)) (current st)]
        else [])
    ++ map run_value (List.filter nonempty (snd (split_at_separators s))).
Proof.
  induction s as [|c s IH]; intros st Hst.
  - cbn. unfold scan_finish. destruct (in_number st); cbn; by rewrite ?app_nil_r.
  - cbn [fold_left split_at_separators].
    destruct (split_at_separators s) as [p ps] eqn:Hsplit.
    unfold scan_char at 2. cbn [fst snd] in IH |- *.
    destruct (is_digit c) eqn:Hc.
    + rewrite IH by (cbn; discriminate). cbn. by rewrite orb_true_r.
    + destruct (in_number st) eqn:Hin.
      * rewrite IH by (cbn; done). cbn. rewrite <- app_assoc. cbn.
        destruct p; reflexivity.
      * rewrite IH by (intros _; exact (Hst eq_refl)). rewrite Hin. cbn.
        rewrite (Hst eq_refl).
        destruct p; reflexivity.
Qed.

Lemma extract_numbers_runs text :
  extract_numbers text = map run_value (digit_runs (list_ascii_of_string text)).
Proof.
  unfold extract_numbers, digit_runs.
  rewrite scan_pieces by done.
  destruct (split_at_separators _) as [p ps]. cbn.
  destruct p; reflexivity.
Qed.

(** ** The runs of a text are its maximal digit runs *)

Lemma maximal_runs_separator c rest runs :
  is_digit c = false -> maximal_runs rest runs -> maximal_runs (c :: rest) runs.
Proof.
  intros Hc Hruns. inversion Hruns as [seps Hseps|seps run rest' runs' Hseps]; subst.
  - apply runs_none. by constructor.
  - change (maximal_runs ((c :: seps) ++ run ++ rest') (run :: runs')).
    apply runs_next; auto.
Qed.

Lemma split_at_separators_spec s :
  Forall (fun c => is_digit c = true) (split_at_separators s).1 /\
  exists rest,
    s = (split_at_separators s).1 ++ rest /\
    (forall c rest', rest = c :: rest' -> is_digit c = false) /\
    maximal_runs rest (List.filter nonempty (split_at_separators s).2).
Proof.
  induction s as [|c s (Hp & rest & Hs & Hrest & Hruns)]; cbn.
  - split; [constructor|]. exists []. repeat split; [discriminate|].
    apply runs_none. constructor.
  - destruct (split_at_separators s) as [p ps]. cbn [fst snd] in *.
    destruct (is_digit c) eqn:Hc; cbn [fst snd].
    + split; [by constructor|]. exists rest. repeat split; [by rewrite Hs at 1| |]; done.
    + split; [constructor|]. exists (c :: s). repeat split.
      * intros c' rest' [= <- _]. exact Hc.
      * destruct p as [|d p]; cbn [List.filter nonempty].
        -- apply maximal_runs_separator; [done|]. by rewrite Hs.
        -- rewrite Hs. change (maximal_runs ([c] ++ (d :: p) ++ rest)
                                 ((d :: p) :: List.filter nonempty ps)).
           apply runs_next; auto.
Qed.

Lemma digit_runs_maximal s : maximal_runs s (digit_runs s).
Proof.
  unfold digit_runs.
  destruct (split_at_separators_spec s) as (Hp & rest & Hs & Hrest & Hruns).
  destruct (split_at_separators s) as [p ps]. cbn [fst snd] in *.
  destruct p as [|d p]; cbn [List.filter nonempty].
  - by rewrite Hs.
  - rewrite Hs. change (maximal_runs ([] ++ (d :: p) ++ rest)
                          ((d :: p) :: List.filter nonempty ps)).
    apply runs_next; auto.
Qed.

Lemma digit_runs_separators seps s :
  Forall (fun c => is_digit c = false) seps -> digit_runs (seps ++ s) = digit_runs s.
Proof.
  induction 1 as [|c seps Hc _ IH]; [done|].
  rewrite <- IH. unfold digit_runs. cbn.
  destruct (split_at_separators (seps ++ s)) as [p ps]. by rewrite Hc.
Qed.

Lemma digit_runs_run run rest :
  run <> [] ->
  Forall (fun c => is_digit c = true) run ->
  (forall c rest', rest = c :: rest' -> is_digit c = false) ->
  digit_runs (run ++ rest) = run :: digit_runs rest.
Proof.
  intros Hne Hrun Hrest.
  assert (Hsplit : split_at_separators (run ++ rest)
                   = (run ++ (split_at_separators rest).1, (split_at_separators rest).2)).
  { clear Hne. induction Hrun as [|c run Hc _ IH]; cbn.
    - by destruct (split_at_separators rest).
    - by rewrite IH, Hc. }
  assert (Hfirst : (split_at_separators rest).1 = []).
  { destruct rest as [|c rest']; [done|]. cbn.
    destruct (split_at_separators rest'). by rewrite (Hrest c rest' eq_refl). }
  unfold digit_runs. rewrite Hsplit.
  destruct (split_at_separators rest) as [p ps]. cbn [fst snd] in *. subst p.
  rewrite app_nil_r. destruct run; [done|reflexivity].
Qed.

(** The maximal digit runs of a text are unique: they are [digit_runs]. *)
Lemma maximal_runs_unique s runs : maximal_runs s runs -> runs = digit_runs s.
Proof.
  induction 1 as [seps Hseps|seps run rest runs Hseps Hne Hrun Hrest _ IH].
  - rewrite <- (app_nil_r seps). by rewrite digit_runs_separators.
  - rewrite digit_runs_separators, digit_runs_run by done. by rewrite IH.
Qed.

Lemma digit_runs_digits s :
  Forall (fun run => run <> [] /\ Forall (fun c => is_digit c = true) run) (digit_runs s).
Proof.
  induction (digit_runs_maximal s); constructor; auto.
Qed.

(** ** Values of digit runs *)

Lemma decimal_value_snoc run c :
  decimal_value (run ++ [c]) = decimal_value run * 10 + digit_value c.
Proof. unfold decimal_value. by rewrite fold_left_app. Qed.

Lemma run_value_snoc run c :
  run_value (run ++ [c]) = Int64.add (Int64.mul (run_value run) 10) (digit_value c).
Proof. unfold run_value. by rewrite fold_left_app. Qed.

Lemma decimal_value_nonneg run :
  Forall (fun c => is_digit c = true) run -> 0 <= decimal_value run.
Proof.
  induction run as [|c run IH] using rev_ind; intros Hrun; [done|].
  apply Forall_app in Hrun as [Hrun Hc]. inversion_clear Hc as [|? ? Hc' _].
  rewrite decimal_value_snoc. pose proof (digit_value_range c Hc'). specialize (IH Hrun). lia.
Qed.

(** Below [2^63] the accumulation never wraps. *)
Lemma run_value_decimal run :
  Forall (fun c => is_digit c = true) run ->
  decimal_value run < 2 ^ 63 ->
  run_value run = decimal_value run.
Proof.
  induction run as [|c run IH] using rev_ind; intros Hrun Hlt; [done|].
  apply Forall_app in Hrun as [Hrun Hc]. inversion_clear Hc as [|? ? Hc' _].
  rewrite decimal_value_snoc in Hlt |- *. rewrite run_value_snoc.
  pose proof (digit_value_range c Hc'). pose proof (decimal_value_nonneg run Hrun).
  rewrite IH by (done || lia). unfold Int64.add, Int64.mul.
  rewrite (int64_wrap_id (_ * 10)) by (unfold Int64.in_range, Int64.half_modulus; lia).
  apply int64_wrap_id. unfold Int64.in_range, Int64.half_modulus. lia.
Qed.

Lemma int64_wrap_eq x y : x mod 2 ^ 64 = y mod 2 ^ 64 -> Int64.wrap x = Int64.wrap y.
Proof.
  intros Hxy. unfold Int64.wrap, Int64.modulus, Int64.half_modulus.
  rewrite (Zplus_mod x), (Zplus_mod y), Hxy. reflexivity.
Qed.

(** Whatever its length, a run accumulates to its decimal value wrapped
    around to 64 bits. *)
Lemma run_value_wrap run : run_value run = Int64.wrap (decimal_value run).
Proof.
  induction run as [|c run IH] using rev_ind; [reflexivity|].
  rewrite run_value_snoc, decimal_value_snoc, IH. unfold Int64.add, Int64.mul.
  apply int64_wrap_eq.
  rewrite Zplus_mod, int64_wrap_mod, Zmult_mod, int64_wrap_mod, <- Zmult_mod, <- Zplus_mod.
  reflexivity.
Qed.

Lemma run_value_in_range run : Int64.in_range (run_value run).
Proof.
  destruct run as [|c run] using rev_ind.
  - unfold Int64.in_range, Int64.half_modulus, run_value. cbn. lia.
  - rewrite run_value_snoc. apply int64_wrap_in_range.
Qed.

(** ** The shape parser, case by case *)

Lemma parse_shapes_cases text :
  parse_shapes text =
    match extract_numbers text with
    | m :: k :: k2 :: n :: rest =>
        if negb (k =? k2) then Throw shape_k_mismatch else
        match rest with
        | out_m :: out_n :: _ =>
            if negb (out_m =? m) || negb (out_n =? n)
            then Throw output_shape_mismatch else Ok (Shape m k n)
        | _ => Ok (Shape m k n)
        end
    | _ => Throw shapes_too_few
    end.
Proof.
  unfold parse_shapes.
  destruct (extract_numbers text) as [|m [|k [|k2 [|n [|out_m [|out_n rest]]]]]];
    try reflexivity.
  cbv [mbind outcome_bind vec_at]. cbn.
  destruct (negb (k =? k2)); [reflexivity|].
  destruct (negb (out_m =? m) || negb (out_n =? n)); reflexivity.
Qed.

Lemma parse_shapes_ok_inv text shape :
  parse_shapes text = Ok shape ->
  exists k2 rest,
    extract_numbers text = shape_m shape :: shape_k shape :: k2 :: shape_n shape :: rest.
Proof.
  rewrite parse_shapes_cases.
  destruct (extract_numbers text) as [|m [|k [|k2 [|n rest]]]]; try discriminate.
  destruct (negb (k =? k2)); [discriminate|].
  destruct rest as [|out_m [|out_n rest]].
  - intros [= <-]. by eexists _, _.
  - intros [= <-]. by eexists _, _.
  - destruct (_ || _); [discriminate|]. intros [= <-]. by eexists _, _.
Qed.

Lemma extract_numbers_in_range text : Forall Int64.in_range (extract_numbers text).
Proof.
  rewrite extract_numbers_runs. apply Forall_map, Forall_forall.
  intros run _. apply run_value_in_range.
Qed.

Lemma extract_numbers_decimal text :
  Forall2 (fun run v => decimal_value run < 2 ^ 63 -> v = decimal_value run /\ 0 <= v)
          (digit_runs (list_ascii_of_string text)) (extract_numbers text).
Proof.
  rewrite extract_numbers_runs.
  induction (digit_runs_digits (list_ascii_of_string text)) as [|run runs [_ Hrun] _ IH];
    cbn; constructor; [|exact IH].
  intros Hlt. rewrite run_value_decimal by done.
  split; [done|]. by apply decimal_value_nonneg.
Qed.

Lemma extract_numbers_nonneg text :
  Forall (fun run => decimal_value run < 2 ^ 63) (digit_runs (list_ascii_of_string text)) ->
  Forall (fun v => 0 <= v) (extract_numbers text).
Proof.
  intros Hall. pose proof (extract_numbers_decimal text) as H2.
  induction H2 as [|run v runs vs Hv _ IH]; [constructor|].
  inversion_clear Hall as [|? ? Hrun Hruns]. constructor; [|by apply IH].
  by destruct (Hv Hrun).
Qed.

(** Only the first six numbers decide the parse. *)
Lemma parse_shapes_first_six text text' :
  take 6 (extract_numbers text) = take 6 (extract_numbers text') ->
  parse_shapes text = parse_shapes text'.
Proof.
  rewrite !parse_shapes_cases.
  destruct (extract_numbers text) as [|m [|k [|k2 [|n [|out_m [|out_n rest]]]]]];
    destruct (extract_numbers text') as [|m' [|k' [|k2' [|n' [|out_m' [|out_n' rest']]]]]];
    cbn [take]; intros Heq; try discriminate; by simplify_eq.
Qed.

(** ** Claims about the shape-specification parser *)

(** C1: [parse_shapes] extracts the numbers of the spec; with fewer than
    four numbers it fails with a shape-format error; otherwise, reading
    numbers 0 to 3 as (m, k, k2, n), it fails with a shape-mismatch error
    when k and k2 differ; with six or more numbers it fails with a
    shape-mismatch error unless numbers 4 and 5 are m and n; in every
    remaining case it returns the shape (m, k, n). Nothing beyond index 5 is
    looked at. *)
Theorem parse_shapes_validation (text : string) :
  let nums := extract_numbers text in
  ((length nums < 4)%nat -> fails_with (parse_shapes text) ShapeFormatError) /\
  (forall m k k2 n : Z,
     nums !! 0%nat = Some m -> nums !! 1%nat = Some k ->
     nums !! 2%nat = Some k2 -> nums !! 3%nat = Some n ->
     (k <> k2 -> fails_with (parse_shapes text) ShapeMismatchError) /\
     (k = k2 ->
      (forall out_m out_n : Z,
         nums !! 4%nat = Some out_m -> nums !! 5%nat = Some out_n ->
         out_m <> m \/ out_n <> n ->
         fails_with (parse_shapes text) ShapeMismatchError) /\
      ((length nums < 6)%nat \/ (nums !! 4%nat = Some m /\ nums !! 5%nat = Some n) ->
       parse_shapes text = Ok (Shape m k n)))) /\
  (forall text' : string,
     take 6 nums = take 6 (extract_numbers text') -> parse_shapes text = parse_shapes text').
Proof.
  intros nums. subst nums.
  cut (forall A B C : Prop, A /\ B -> C -> A /\ B /\ C); [|tauto].
  intros Hcut. apply Hcut; [|intros text'; apply parse_shapes_first_six]. clear Hcut.
  rewrite parse_shapes_cases.
  destruct (extract_numbers text) as [|m' [|k' [|k2' [|n' rest]]]]; cbn [length]; split;
    try (intros _; by eexists);
    try (intros ? ? ? ? ? ? ? ?; discriminate);
    try lia.
  intros m k k2 n [= ->] [= ->] [= ->] [= ->]. split.
  - intros Hk. apply Z.eqb_neq in Hk. rewrite Hk. by eexists.
  - intros <-. rewrite Z.eqb_refl. cbn [negb]. split.
    + intros out_m out_n. destruct rest as [|out_m' [|out_n' rest]]; try discriminate.
      intros [= ->] [= ->] Hout.
      assert (negb (out_m =? m) || negb (out_n =? n) = true) as ->; [|by eexists].
      destruct Hout as [Hout|Hout]; apply Z.eqb_neq in Hout; rewrite Hout; cbn;
        [done|by rewrite orb_true_r].
    + destruct rest as [|out_m' [|out_n' rest]]; try reflexivity.
      cbn [length]. intros [Hlen|[[= ->] [= ->]]]; [lia|].
      by rewrite !Z.eqb_refl.
Qed.

Lemma parse_shapes_validation_witness :
  fails_with (parse_shapes "[1,2,3]") ShapeFormatError /\
  fails_with (parse_shapes "[[2,3],[5,4]]") ShapeMismatchError /\
  fails_with (parse_shapes "[[2,3],[3,4],[2,5]]") ShapeMismatchError /\
  parse_shapes "[[2,3],[3,4]]" = Ok (Shape 2 3 4) /\
  parse_shapes "[[2,3],[3,4],[2,4],[9,9]]" = Ok (Shape 2 3 4) /\
  parse_shapes "[[2,3],[3,4],[2,4],[9,9]]" = parse_shapes "2x3 3x4 -> 2x4 (7)".
Proof.
  split; [|split; [|split; [|split; [|split]]]].
  - apply (proj1 (parse_shapes_validation "[1,2,3]")). vm_compute. lia.
  - apply (proj1 (proj2 (parse_shapes_validation "[[2,3],[5,4]]")) 2 3 5 4
             eq_refl eq_refl eq_refl eq_refl).
    lia.
  - apply (proj1 (proj2 (parse_shapes_validation "[[2,3],[3,4],[2,5]]")) 2 3 3 4
             eq_refl eq_refl eq_refl eq_refl) with (out_m := 2) (out_n := 5);
      [reflexivity..|]. right. lia.
  - apply (proj1 (proj2 (parse_shapes_validation "[[2,3],[3,4]]")) 2 3 3 4
             eq_refl eq_refl eq_refl eq_refl); [reflexivity|].
    left. vm_compute. lia.
  - apply (proj1 (proj2 (parse_shapes_validation "[[2,3],[3,4],[2,4],[9,9]]")) 2 3 3 4
             eq_refl eq_refl eq_refl eq_refl); [reflexivity|].
    right. split; reflexivity.
  - apply (proj2 (proj2 (parse_shapes_validation "[[2,3],[3,4],[2,4],[9,9]]"))).
    reflexivity.
Defined.

(** C2: [extract_numbers] returns exactly the maximal runs of decimal
    digits of its input, each converted by [value = value * 10 + digit],
    in their order of occurrence, every other character being a
    separator; the three texts of the specification all give [1;2;3;4]. *)
Theorem extract_numbers_maximal_runs :
  (forall text : string,
     maximal_runs (list_ascii_of_string text) (digit_runs (list_ascii_of_string text)) /\
     (forall runs : list (list ascii),
        maximal_runs (list_ascii_of_string text) runs ->
        extract_numbers text = map run_value runs)) /\
  extract_numbers "1,2,3,4" = [1; 2; 3; 4] /\
  extract_numbers "[[1,2],[3,4]]" = [1; 2; 3; 4] /\
  extract_numbers "m=1 k=2 k=3 n=4" = [1; 2; 3; 4].
Proof.
  split; [|by vm_compute].
  intros text. split; [apply digit_runs_maximal|].
  intros runs ->%maximal_runs_unique. apply extract_numbers_runs.
Qed.

Lemma extract_numbers_maximal_runs_witness :
  extract_numbers "ab12c" = map run_value [["1"; "2"]%char].
Proof.
  apply (proj2 (proj1 extract_numbers_maximal_runs "ab12c")).
  apply (runs_next ["a"; "b"]%char ["1"; "2"]%char ["c"%char] []).
  - by repeat constructor.
  - discriminate.
  - by repeat constructor.
  - by intros c rest' [= <- _].
  - apply runs_none. by repeat constructor.
Defined.

(** C9: when exactly five numbers are extracted, the fifth is not
    validated: the parse succeeds with (nums[0], nums[1], nums[3]) whenever
    nums[1] = nums[2], whatever nums[4] is. *)
Theorem parse_shapes_five_numbers (text : string) (n0 n1 n2 n3 n4 : Z) :
  extract_numbers text = [n0; n1; n2; n3; n4] ->
  n1 = n2 ->
  parse_shapes text = Ok (Shape n0 n1 n3).
Proof.
  intros Hnums <-. rewrite parse_shapes_cases, Hnums. by rewrite Z.eqb_refl.
Qed.

Lemma parse_shapes_five_numbers_witness :
  parse_shapes "2x3,3x4,77" = Ok (Shape 2 3 4).
Proof.
  apply (parse_shapes_five_numbers "2x3,3x4,77" 2 3 3 4 77); reflexivity.
Defined.

(** C7, the statement as claimed fails: a digit run of value [2^63] wraps
    around to a negative number, and a shape parsed from it has a negative
    component. *)
Lemma extract_numbers_negative :
  extract_numbers "9223372036854775808" = [-9223372036854775808] /\
  ~ Forall (fun v => 0 <= v) (extract_numbers "9223372036854775808") /\
  parse_shapes "9223372036854775808,2,2,3" = Ok (Shape (-9223372036854775808) 2 3).
Proof.
  split; [by vm_compute|]. split; [|by vm_compute].
  intros H. vm_compute in H. inversion_clear H as [|? ? Hneg _]. by apply Hneg.
Qed.

(** C7, amended: every integer produced by [extract_numbers] is a signed
    64-bit value: the decimal value of its digit run wrapped around to 64
    bits, whatever the length of the run. It is that decimal value itself,
    hence non-negative, whenever the value is below [2^63]. The components
    of a parsed [MatmulShape] are signed 64-bit values, and are
    non-negative when every digit run of the spec is below [2^63]. *)
Theorem extract_numbers_signed_range (text : string) :
  Forall Int64.in_range (extract_numbers text) /\
  extract_numbers text
  = map (fun run => Int64.wrap (decimal_value run)) (digit_runs (list_ascii_of_string text)) /\
  Forall2 (fun run v => decimal_value run < 2 ^ 63 -> v = decimal_value run /\ 0 <= v)
          (digit_runs (list_ascii_of_string text)) (extract_numbers text) /\
  (forall shape : MatmulShape,
     parse_shapes text = Ok shape ->
     (Int64.in_range (shape_m shape) /\ Int64.in_range (shape_k shape)
      /\ Int64.in_range (shape_n shape)) /\
     (Forall (fun run => decimal_value run < 2 ^ 63) (digit_runs (list_ascii_of_string text)) ->
      0 <= shape_m shape /\ 0 <= shape_k shape /\ 0 <= shape_n shape)).
Proof.
  split; [apply extract_numbers_in_range|].
  split; [rewrite extract_numbers_runs; apply map_ext; intros run; apply run_value_wrap|].
  split; [apply extract_numbers_decimal|].
  intros shape (k2 & rest & Hnums)%parse_shapes_ok_inv. split.
  - pose proof (extract_numbers_in_range text) as Hall. rewrite Hnums in Hall.
    inversion_clear Hall as [|? ? Hm Hall1]. inversion_clear Hall1 as [|? ? Hk Hall2].
    inversion_clear Hall2 as [|? ? _ Hall3]. inversion_clear Hall3 as [|? ? Hn _]. done.
  - intros Hall%extract_numbers_nonneg. rewrite Hnums in Hall.
    inversion_clear Hall as [|? ? Hm Hall1]. inversion_clear Hall1 as [|? ? Hk Hall2].
    inversion_clear Hall2 as [|? ? _ Hall3]. inversion_clear Hall3 as [|? ? Hn _]. done.
Qed.

Lemma extract_numbers_signed_range_witness :
  0 <= 12 /\ 0 <= 3 /\ 0 <= 45.
Proof.
  assert (Hparse : parse_shapes "12x3,3x45" = Ok (Shape 12 3 45)) by (vm_compute; reflexivity).
  assert (Hruns : Forall (fun run => decimal_value run < 2 ^ 63)
                         (digit_runs (list_ascii_of_string "12x3,3x45"))).
  { let runs := eval vm_compute in (digit_runs (list_ascii_of_string "12x3,3x45")) in
    change (Forall (fun run => decimal_value run < 2 ^ 63) runs).
    repeat (constructor; [by vm_compute|]). constructor. }
  exact (proj2 (proj2 (proj2 (proj2 (extract_numbers_signed_range "12x3,3x45"))) _ Hparse)
           Hruns).
Defined.

(** ** Loops and buffers *)

Ltac outcome_simpl := cbv beta iota delta [mbind outcome_bind mret outcome_ret].

Lemma for_loop_invariant {S} (P : nat -> S -> Prop) count :
  forall (first : N) (body : N -> S -> outcome S) (s : S),
  P 0%nat s ->
  (forall t s, (t < count)%nat -> P t s ->
     exists s', body (first + N.of_nat t)%N s = Ok s' /\ P (Datatypes.S t) s') ->
  exists s', for_loop count first body s = Ok s' /\ P count s'.
Proof.
  revert P. induction count as [|count IH]; intros P first body s H0 Hstep.
  - exists s. by split.
  - destruct (Hstep 0%nat s ltac:(lia) H0) as (s1 & Hbody & H1).
    rewrite N.add_0_r in Hbody. cbn [for_loop]. rewrite Hbody. cbn.
    apply (IH (fun t => P (Datatypes.S t))); [done|].
    intros t s' Ht HP. destruct (Hstep (Datatypes.S t) s' ltac:(lia) HP) as (s2 & Hbody2 & H2).
    exists s2. split; [|done]. rewrite <- Hbody2. f_equal. lia.
Qed.

Lemma for_loop_skip {S} count : forall (first : N) (s : S),
  for_loop count first (fun _ s => Ok s) s = Ok s.
Proof. induction count as [|count IH]; intros first s; [done|]. cbn. apply IH. Qed.

Lemma vec_at_nth {A} (v : list A) (i : nat) (d : A) :
  (i < length v)%nat -> vec_at v i = Ok (nth i v d).
Proof.
  intros Hi. unfold vec_at.
  destruct (lookup_lt_is_Some_2 v i Hi) as [x Hx]. rewrite Hx.
  by rewrite (nth_lookup_Some v i d x Hx).
Qed.

Lemma size_index (i k j : N) :
  (i * k + j < 2 ^ 64)%N ->
  N.to_nat (SizeT.add (SizeT.mul i k) j) = (N.to_nat i * N.to_nat k + N.to_nat j)%nat.
Proof.
  intros Hlt. unfold SizeT.add, SizeT.mul, SizeT.wrap, SizeT.modulus.
  rewrite (N.mod_small (i * k)) by lia. rewrite N.mod_small by lia. lia.
Qed.

(** ** The kernel computes the product *)

Section KernelCorrect.

Context {T : Type} `{ElemType T}.
Variables (a b : list T) (m k n : N).
Hypothesis Ha : length a = (N.to_nat m * N.to_nat k)%nat.
Hypothesis Hb : length b = (N.to_nat k * N.to_nat n)%nat.
Hypothesis Hmk : (m * k < 2 ^ 64)%N.
Hypothesis Hkn : (k * n < 2 ^ 64)%N.
Hypothesis Hmn : (m * n < 2 ^ 64)%N.

(** The innermost loop accumulates the dot product of row [i] and column [j]. *)
Lemma kernel_inner_loop (i j : nat) :
  (i < N.to_nat m)%nat -> (j < N.to_nat n)%nat ->
  for_loop (N.to_nat k) 0%N (fun kk acc =>
    x ← vec_at a (N.to_nat (SizeT.add (SizeT.mul (N.of_nat i) k) kk));
    y ← vec_at b (N.to_nat (SizeT.add (SizeT.mul kk n) (N.of_nat j)));
    Ok (elt_add acc (elt_mul x y))) elt_zero
  = Ok (dot_product a b (N.to_nat k) (N.to_nat n) i j).
Proof.
  intros Hi Hj.
  edestruct (for_loop_invariant
    (fun t acc => acc = fold_left (fun acc p =>
        elt_add acc (elt_mul (nth (i * N.to_nat k + p) a elt_zero)
                             (nth (p * N.to_nat n + j) b elt_zero)))
      (seq 0 t) elt_zero)) as (acc & -> & ->); [reflexivity| |reflexivity].
  intros t acc Ht ->. rewrite N.add_0_l.
  rewrite !size_index by nia. rewrite !Nat2N.id.
  rewrite (vec_at_nth a _ elt_zero) by nia.
  rewrite (vec_at_nth b _ elt_zero) by nia.
  outcome_simpl. eexists. split; [reflexivity|].
  by rewrite seq_S, fold_left_app.
Qed.

(** The loop over [j] fills row [i] of the output and leaves the rows
    before it as they are. *)
Lemma kernel_row_loop (i : nat) (c : list T) :
  (i < N.to_nat m)%nat ->
  length c = (N.to_nat m * N.to_nat n)%nat ->
  (forall i' j, (i' < i)%nat -> (j < N.to_nat n)%nat ->
     c !! (i' * N.to_nat n + j)%nat
     = Some (dot_product a b (N.to_nat k) (N.to_nat n) i' j)) ->
  exists c',
    for_loop (N.to_nat n) 0%N (fun j c =>
      acc ← for_loop (N.to_nat k) 0%N (fun kk acc =>
        x ← vec_at a (N.to_nat (SizeT.add (SizeT.mul (N.of_nat i) k) kk));
        y ← vec_at b (N.to_nat (SizeT.add (SizeT.mul kk n) j));
        Ok (elt_add acc (elt_mul x y))) elt_zero;
      vec_set c (N.to_nat (SizeT.add (SizeT.mul (N.of_nat i) n) j)) acc) c = Ok c' /\
    (length c' = (N.to_nat m * N.to_nat n)%nat /\
     forall i' j, (j < N.to_nat n)%nat -> (i' < i \/ i' = i /\ j < N.to_nat n)%nat ->
       c' !! (i' * N.to_nat n + j)%nat
       = Some (dot_product a b (N.to_nat k) (N.to_nat n) i' j)).
Proof.
  intros Hi Hlen Hc.
  apply (for_loop_invariant (fun t (c : list T) =>
    length c = (N.to_nat m * N.to_nat n)%nat /\
    forall i' j, (j < N.to_nat n)%nat -> (i' < i \/ i' = i /\ j < t)%nat ->
      c !! (i' * N.to_nat n + j)%nat
      = Some (dot_product a b (N.to_nat k) (N.to_nat n) i' j))).
  - split; [exact Hlen|]. intros i' j Hj [Hi'|[_ ?]]; [by apply Hc|lia].
  - intros tj c1 Htj [Hlen1 Hc1]. rewrite !N.add_0_l.
    rewrite kernel_inner_loop by done. outcome_simpl.
    rewrite size_index by nia. rewrite !Nat2N.id.
    unfold vec_set.
    assert (Hidx : (i * N.to_nat n + tj < length c1)%nat) by nia.
    apply Nat.ltb_lt in Hidx as Hidx'. rewrite Hidx'.
    eexists. split; [reflexivity|]. split; [by rewrite length_insert|].
    intros i' j Hj Hij.
    destruct (decide (i' = i /\ j = tj)) as [[-> ->]|Hne].
    + by rewrite list_lookup_insert_eq.
    + rewrite list_lookup_insert_ne by nia. apply Hc1; [done|lia].
Qed.

Lemma matmul_kernel_correct (c0 : list T) :
  length c0 = (N.to_nat m * N.to_nat n)%nat ->
  exists c,
    matmul_kernel a b c0 m k n = Ok c /\
    (length c = (N.to_nat m * N.to_nat n)%nat /\
     forall i j, (i < N.to_nat m)%nat -> (j < N.to_nat n)%nat ->
       c !! (i * N.to_nat n + j)%nat
       = Some (dot_product a b (N.to_nat k) (N.to_nat n) i j)).
Proof.
  intros Hc0. unfold matmul_kernel.
  apply (for_loop_invariant (fun t (c : list T) =>
    length c = (N.to_nat m * N.to_nat n)%nat /\
    forall i j, (i < t)%nat -> (j < N.to_nat n)%nat ->
      c !! (i * N.to_nat n + j)%nat
      = Some (dot_product a b (N.to_nat k) (N.to_nat n) i j))).
  - split; [exact Hc0|lia].
  - intros ti c Hti [Hlen Hc]. rewrite N.add_0_l.
    destruct (kernel_row_loop ti c Hti Hlen Hc) as (c' & Hrun & Hlen' & Hc').
    exists c'. split; [exact Hrun|]. split; [exact Hlen'|].
    intros i j Hi Hj. apply Hc'; [done|lia].
Qed.

End KernelCorrect.

(** ** Sizes computed from a shape *)

Lemma of_int64_id z : 0 <= z < 2 ^ 64 -> SizeT.of_int64 z = Z.to_N z.
Proof. intros Hz. unfold SizeT.of_int64. by rewrite Z.mod_small. Qed.

(** The cast of a 64-bit product to [size_t] is the product modulo [2^64]. *)
Lemma of_int64_mul x y : SizeT.of_int64 (Int64.mul x y) = Z.to_N ((x * y) mod 2 ^ 64).
Proof. unfold SizeT.of_int64, Int64.mul. by rewrite int64_wrap_mod. Qed.

Lemma of_int64_mul_id x y :
  0 <= x * y < 2 ^ 64 -> SizeT.of_int64 (Int64.mul x y) = Z.to_N (x * y).
Proof. intros Hxy. rewrite of_int64_mul. by rewrite Z.mod_small. Qed.

(** ** The allocation of a vector *)

Lemma vector_max_size_bound {T} `{ElemType T} : (vector_max_size (T := T) < 2 ^ 63)%N.
Proof.
  unfold vector_max_size. destruct (N.of_nat sizeof) as [|p] eqn:Hsize; [by cbn|].
  pose proof (N.Div0.div_le_upper_bound (2 ^ 63 - 1) (N.pos p) (2 ^ 63 - 1)) as Hle. lia.
Qed.

Lemma new_vector_too_long {T} `{ElemType T} (refused : N -> bool) (count : N) :
  (vector_max_size (T := T) < count)%N ->
  new_vector (T := T) refused count = Throw vector_length_error.
Proof.
  intros Hcount. unfold new_vector, check_init_len.
  apply N.ltb_lt in Hcount. by rewrite Hcount.
Qed.

Lemma new_vector_refused {T} `{ElemType T} (refused : N -> bool) (count : N) :
  (0 < count <= vector_max_size (T := T))%N ->
  refused (count * N.of_nat sizeof)%N = true ->
  new_vector (T := T) refused count = Throw bad_alloc.
Proof.
  intros [Hpos Hcount] Hrefused. unfold new_vector, check_init_len.
  apply N.ltb_ge in Hcount. rewrite Hcount. outcome_simpl.
  apply N.ltb_lt in Hpos. by rewrite Hpos, Hrefused.
Qed.

Lemma new_vector_granted {T} `{ElemType T} (refused : N -> bool) (count : N) :
  (count <= vector_max_size (T := T))%N ->
  refused (count * N.of_nat sizeof)%N = false ->
  new_vector refused count = Ok (replicate (N.to_nat count) (elt_zero (T := T))).
Proof.
  intros Hcount Hgranted. unfold new_vector, check_init_len.
  apply N.ltb_ge in Hcount. rewrite Hcount. outcome_simpl.
  by rewrite Hgranted, andb_false_r.
Qed.

Lemma new_vector_empty {T} `{ElemType T} (refused : N -> bool) :
  new_vector (T := T) refused 0 = Ok [].
Proof.
  unfold new_vector, check_init_len.
  destruct (N.ltb_spec (vector_max_size (T := T)) 0) as [Hlt|_]; [lia|reflexivity].
Qed.

Lemma matmul_output_in_range {T} `{ElemType T} (refused : N -> bool) (m k n : Z)
    (a b : list T) :
  0 <= m < 2 ^ 63 -> 0 <= k < 2 ^ 63 -> 0 <= n < 2 ^ 63 ->
  m * k < 2 ^ 64 -> k * n < 2 ^ 64 ->
  m * n <= Z.of_N (vector_max_size (T := T)) ->
  refused (Z.to_N (m * n) * N.of_nat sizeof)%N = false ->
  Z.of_nat (length a) = m * k ->
  Z.of_nat (length b) = k * n ->
  exists c,
    matmul_output refused (Shape m k n) a b = Ok c /\
    Z.of_nat (length c) = m * n /\
    forall i j : nat, Z.of_nat i < m -> Z.of_nat j < n ->
      c !! (i * Z.to_nat n + j)%nat
      = Some (dot_product a b (Z.to_nat k) (Z.to_nat n) i j).
Proof.
  intros Hm Hk Hn Hmk Hkn Hmax Hgranted Ha Hb.
  pose proof (vector_max_size_bound (T := T)) as Hbound.
  assert (Hmn : m * n < 2 ^ 64) by lia.
  unfold matmul_output. cbn [shape_m shape_k shape_n].
  rewrite of_int64_mul_id by nia. rewrite !of_int64_id by lia.
  rewrite new_vector_granted by (done || lia). outcome_simpl.
  destruct (matmul_kernel_correct a b (Z.to_N m) (Z.to_N k) (Z.to_N n))
    with (c0 := replicate (N.to_nat (Z.to_N (m * n))) (elt_zero (T := T)))
    as (c & Hrun & Hlen & Hc); try nia.
  { rewrite length_replicate. nia. }
  exists c. split; [exact Hrun|]. split; [nia|].
  intros i j Hi Hj. rewrite <- !Z_N_nat. apply Hc; lia.
Qed.

Lemma matmul_kernel_in_range {T} `{ElemType T} (m k n : Z) (a b c0 : list T) :
  0 <= m < 2 ^ 63 -> 0 <= k < 2 ^ 63 -> 0 <= n < 2 ^ 63 ->
  m * k < 2 ^ 64 -> k * n < 2 ^ 64 -> m * n < 2 ^ 64 ->
  Z.of_nat (length a) = m * k ->
  Z.of_nat (length b) = k * n ->
  Z.of_nat (length c0) = m * n ->
  exists c,
    matmul_kernel a b c0 (Z.to_N m) (Z.to_N k) (Z.to_N n) = Ok c /\
    Z.of_nat (length c) = m * n /\
    forall i j : nat, Z.of_nat i < m -> Z.of_nat j < n ->
      c !! (i * Z.to_nat n + j)%nat
      = Some (dot_product a b (Z.to_nat k) (Z.to_nat n) i j).
Proof.
  intros Hm Hk Hn Hmk Hkn Hmn Ha Hb Hc0.
  destruct (matmul_kernel_correct a b (Z.to_N m) (Z.to_N k) (Z.to_N n))
    with (c0 := c0) as (c & Hrun & Hlen & Hc); try nia.
  exists c. split; [exact Hrun|]. split; [nia|].
  intros i j Hi Hj. rewrite <- !Z_N_nat. apply Hc; lia.
Qed.

(** The output of [run_matmul] when its buffer is granted. *)
Lemma matmul_output_granted {T} `{ElemType T} (refused : N -> bool) (m k n : Z)
    (a b : list T) :
  0 <= m < 2 ^ 63 -> 0 <= k < 2 ^ 63 -> 0 <= n < 2 ^ 63 ->
  m * n <= Z.of_N (vector_max_size (T := T)) ->
  refused (Z.to_N (m * n) * N.of_nat sizeof)%N = false ->
  matmul_output refused (Shape m k n) a b
  = matmul_kernel a b (replicate (Z.to_nat (m * n)) elt_zero)
                  (Z.to_N m) (Z.to_N k) (Z.to_N n).
Proof.
  intros Hm Hk Hn Hmax Hgranted.
  pose proof (vector_max_size_bound (T := T)) as Hbound.
  unfold matmul_output. cbn [shape_m shape_k shape_n].
  rewrite of_int64_mul_id by nia. rewrite !of_int64_id by lia.
  rewrite new_vector_granted by (done || lia). outcome_simpl.
  by rewrite Z_N_nat.
Qed.

(** With no inner dimension and an empty output buffer the kernel still
    stores one element per pair [(i, j)]: outside the buffer. *)
Lemma matmul_kernel_empty_output {T} `{ElemType T} (a b : list T) (m n : N) :
  (0 < m)%N -> (0 < n)%N -> matmul_kernel a b [] m 0 n = Undefined.
Proof.
  intros Hm Hn. unfold matmul_kernel.
  assert (exists m', N.to_nat m = S m') as [m' ->] by (exists (pred (N.to_nat m)); lia).
  assert (exists n', N.to_nat n = S n') as [n' ->] by (exists (pred (N.to_nat n)); lia).
  reflexivity.
Qed.

(** ** The two element types *)

Lemma byte_val_of_Z z : byte_val (byte_of_Z z) = z mod 256.
Proof.
  unfold byte_val, byte_of_Z. pose proof (Z.mod_pos_bound z 256 ltac:(lia)) as Hz.
  destruct (Byte.of_N (Z.to_N (z mod 256))) as [b|] eqn:Hb.
  - apply Byte.to_of_N in Hb. rewrite Hb. lia.
  - apply Byte.of_N_None_iff in Hb. lia.
Qed.

Lemma bits_of_bytes_of_bits u :
  0 <= u < 2 ^ 32 ->
  match bytes_of_bits u with
  | [b0; b1; b2; b3] => bits_of_bytes b0 b1 b2 b3 = u
  | _ => False
  end.
Proof.
  intros Hu. unfold bytes_of_bits, bits_of_bytes. rewrite !byte_val_of_Z.
  change (2 ^ 8) with 256. change (2 ^ 16) with 65536. change (2 ^ 24) with 16777216.
  change (2 ^ 32) with 4294967296 in Hu.
  Z.div_mod_to_equations. lia.
Qed.

Lemma int32_val_of_Z z : int32_val (int32_of_Z z) = Int32.wrap z.
Proof.
  unfold int32_of_Z. pose proof (bits_of_bytes_of_bits (z mod 2 ^ 32)) as Hbits.
  unfold int32_of_bytes. destruct (bytes_of_bits (z mod 2 ^ 32)) as [|b0 [|b1 [|b2 [|b3 [|]]]]];
    try (exfalso; apply Hbits; apply Z.mod_pos_bound; lia).
  cbn [int32_val]. rewrite Hbits by (apply Z.mod_pos_bound; lia).
  unfold Int32.wrap. rewrite Zplus_mod_idemp_l. reflexivity.
Qed.

Lemma int32_wrap_mod z : Int32.wrap z mod 2 ^ 32 = z mod 2 ^ 32.
Proof.
  unfold Int32.wrap. rewrite Zminus_mod, Zmod_mod, <- Zminus_mod. f_equal. lia.
Qed.

Lemma int32_wrap_eq x y : x mod 2 ^ 32 = y mod 2 ^ 32 -> Int32.wrap x = Int32.wrap y.
Proof.
  intros Hxy. unfold Int32.wrap.
  rewrite (Zplus_mod x), (Zplus_mod y), Hxy. reflexivity.
Qed.

(** [int32_t] arithmetic is arithmetic on the values, wrapped around. *)
Lemma int32_add_val x y : int32_val (elt_add x y) = Int32.wrap (int32_val x + int32_val y).
Proof. apply int32_val_of_Z. Qed.

Lemma int32_mul_val x y : int32_val (elt_mul x y) = Int32.wrap (int32_val x * int32_val y).
Proof. apply int32_val_of_Z. Qed.

#[global] Instance int32_laws : ElemTypeLaws int32_t.
Proof.
  split.
  - cbn. lia.
  - by intros [].
  - by intros [].
  - intros [|b0 [|b1 [|b2 [|b3 [|]]]]]; by try discriminate.
Qed.

#[global] Instance float_laws : ElemTypeLaws float.
Proof.
  split.
  - cbn. lia.
  - by intros [].
  - by intros [].
  - intros [|b0 [|b1 [|b2 [|b3 [|]]]]]; by try discriminate.
Qed.

(** On [int32_t] the dot product is the sum of the products of the values,
    wrapped around to 32 bits. *)
Lemma int32_dot_product_val (a b : list int32_t) (k n i j : nat) :
  int32_val (dot_product a b k n i j)
  = Int32.wrap (fold_left (fun sum p => sum + int32_val (nth (i * k + p) a elt_zero)
                                            * int32_val (nth (p * n + j) b elt_zero))
                          (seq 0 k) 0).
Proof.
  unfold dot_product.
  assert (Hfold : forall (l : list nat) (acc : int32_t) (sum : Z),
    int32_val acc = Int32.wrap sum ->
    int32_val (fold_left (fun acc p => elt_add acc (elt_mul (nth (i * k + p) a elt_zero)
                                                            (nth (p * n + j) b elt_zero))) l acc)
    = Int32.wrap (fold_left (fun sum p => sum + int32_val (nth (i * k + p) a elt_zero)
                                              * int32_val (nth (p * n + j) b elt_zero)) l sum)).
  { induction l as [|p l IH]; intros acc sum Hacc; [exact Hacc|].
    cbn [fold_left]. apply IH.
    rewrite int32_add_val, int32_mul_val, Hacc. apply int32_wrap_eq.
    rewrite Zplus_mod, !int32_wrap_mod, <- Zplus_mod. reflexivity. }
  apply Hfold. reflexivity.
Qed.

(** ** Claims about the matmul kernel *)

(** The shape (2^32, 0, 2^32) on two empty operands: the output buffer
    gets [2^64 mod 2^64 = 0] elements and the kernel stores outside it. *)
Lemma matmul_output_no_inner_dimension (refused : N -> bool) :
  matmul_output refused (Shape 4294967296 0 4294967296) (@nil int32_t) [] = Undefined.
Proof.
  unfold matmul_output. cbn [shape_m shape_k shape_n].
  rewrite of_int64_mul. rewrite !of_int64_id by lia.
  change (Z.to_N ((4294967296 * 4294967296) mod 2 ^ 64)) with 0%N.
  change (Z.to_N 0) with 0%N.
  rewrite new_vector_empty. outcome_simpl.
  apply matmul_kernel_empty_output; lia.
Qed.

(** C3, the statement as claimed fails. For the shape (2^32, 0, 2^32),
    which the shapes text "4294967296,0,0,4294967296" gives, the operands
    are two empty buffers, of the lengths m*k and k*n; the output buffer
    gets [2^64 mod 2^64 = 0] elements and the kernel stores outside it,
    which is undefined behaviour: no buffer of m*n elements comes out. For
    the shape (2^31, 0, 2^31), again on two empty operands, the count
    [2^62] of the output is above the largest size of a vector and its
    constructor throws [std::length_error]: the kernel is never called. *)
Lemma matmul_output_overflow :
  Z.of_nat (length (@nil int32_t)) = 4294967296 * 0 /\
  Z.of_nat (length (@nil int32_t)) = 0 * 4294967296 /\
  parse_shapes "4294967296,0,0,4294967296" = Ok (Shape 4294967296 0 4294967296) /\
  count_out (Shape 4294967296 0 4294967296) = 0%N /\
  matmul_output (fun _ => false) (Shape 4294967296 0 4294967296) (@nil int32_t) []
  = Undefined /\
  Z.of_nat (length (@nil int32_t)) = 2147483648 * 0 /\
  Z.of_nat (length (@nil int32_t)) = 0 * 2147483648 /\
  parse_shapes "2147483648,0,0,2147483648" = Ok (Shape 2147483648 0 2147483648) /\
  matmul_output (fun _ => false) (Shape 2147483648 0 2147483648) (@nil int32_t) []
  = Throw vector_length_error.
Proof.
  split; [reflexivity|]. split; [reflexivity|]. split; [by vm_compute|].
  split; [by vm_compute|]. split; [exact (matmul_output_no_inner_dimension _)|].
  split; [reflexivity|]. split; [reflexivity|]. split; [by vm_compute|].
  unfold matmul_output. by rewrite new_vector_too_long by (by vm_compute).
Qed.

(** C3, amended: for each element type [T] (float32 and int32 among
    them), every shape (m, k, n) of non-negative 64-bit integers whose
    products m*k, k*n and m*n are below [2^64], and all buffers [a] of
    length m*k and [b] of length k*n: when m*n is above the largest size
    of a [std::vector<T>] (which is [2^61 - 1] for the two 4-byte types)
    the allocation of the output throws [std::length_error], and when the
    memory for it is refused it throws [std::bad_alloc], in both cases
    before the kernel is called; in every other case the kernel, run on
    the fresh buffer of m*n zeros, produces a buffer of length exactly
    m*n in which [c[i*n+j]] is the sum over p from 0 to k-1 of
    [a[i*k+p] * b[p*n+j]], products and sums taken in [T], left to right;
    for int32 that is the integer sum wrapped around to 32 bits. On
    A = [1,0,0,1], B = [5,6,7,8] and the shape (2,2,2) the result is
    [5,6,7,8], in both types. *)
Theorem matmul_output_correct :
  (forall (T : Type) (ET : ElemType T) (refused : N -> bool) (m k n : Z) (a b : list T),
     0 <= m < 2 ^ 63 -> 0 <= k < 2 ^ 63 -> 0 <= n < 2 ^ 63 ->
     m * k < 2 ^ 64 -> k * n < 2 ^ 64 -> m * n < 2 ^ 64 ->
     Z.of_nat (length a) = m * k ->
     Z.of_nat (length b) = k * n ->
     (Z.of_N (vector_max_size (T := T)) < m * n ->
      matmul_output refused (Shape m k n) a b = Throw vector_length_error) /\
     (0 < m * n <= Z.of_N (vector_max_size (T := T)) ->
      refused (Z.to_N (m * n) * N.of_nat sizeof)%N = true ->
      matmul_output refused (Shape m k n) a b = Throw bad_alloc) /\
     (m * n <= Z.of_N (vector_max_size (T := T)) ->
      refused (Z.to_N (m * n) * N.of_nat sizeof)%N = false ->
      matmul_output refused (Shape m k n) a b
      = matmul_kernel a b (replicate (Z.to_nat (m * n)) elt_zero)
                      (Z.to_N m) (Z.to_N k) (Z.to_N n) /\
      exists c,
        matmul_output refused (Shape m k n) a b = Ok c /\
        Z.of_nat (length c) = m * n /\
        forall i j : nat, Z.of_nat i < m -> Z.of_nat j < n ->
          c !! (i * Z.to_nat n + j)%nat
          = Some (dot_product a b (Z.to_nat k) (Z.to_nat n) i j))) /\
  (vector_max_size (T := int32_t) = (2 ^ 61 - 1)%N /\
   vector_max_size (T := float) = (2 ^ 61 - 1)%N) /\
  (forall (a b : list int32_t) (k n i j : nat),
     int32_val (dot_product a b k n i j)
     = Int32.wrap (fold_left (fun sum p => sum + int32_val (nth (i * k + p) a elt_zero)
                                               * int32_val (nth (p * n + j) b elt_zero))
                             (seq 0 k) 0)) /\
  matmul_output (fun _ => false) (Shape 2 2 2)
                (map int32_of_Z [1; 0; 0; 1]) (map int32_of_Z [5; 6; 7; 8])
  = Ok (map int32_of_Z [5; 6; 7; 8]) /\
  matmul_output (fun _ => false) (Shape 2 2 2)
                (map float_of_Z [1; 0; 0; 1]) (map float_of_Z [5; 6; 7; 8])
  = Ok (map float_of_Z [5; 6; 7; 8]).
Proof.
  split; [|split; [split; by vm_compute|
                   split; [exact int32_dot_product_val|split; by vm_compute]]].
  intros T ET refused m k n a b Hm Hk Hn Hmk Hkn Hmn Ha Hb.
  assert (Hcount : SizeT.of_int64 (Int64.mul m n) = Z.to_N (m * n))
    by (apply of_int64_mul_id; nia).
  split; [|split].
  - intros Hlong. unfold matmul_output. cbn [shape_m shape_k shape_n].
    rewrite Hcount. by rewrite new_vector_too_long by lia.
  - intros Hsize Hrefused. unfold matmul_output. cbn [shape_m shape_k shape_n].
    rewrite Hcount. by rewrite new_vector_refused by (done || lia).
  - intros Hsize Hgranted. split.
    + unfold matmul_output. cbn [shape_m shape_k shape_n].
      rewrite Hcount, !of_int64_id by lia.
      rewrite new_vector_granted by (done || lia). outcome_simpl.
      by rewrite Z_N_nat.
    + by apply matmul_output_in_range.
Qed.

Lemma matmul_output_correct_witness :
  exists c : list int32_t,
    matmul_output (fun _ => false) (Shape 2 3 2) (map int32_of_Z [1; 2; 3; 4; 5; 6])
                  (map int32_of_Z [1; 0; 0; 1; 1; 1]) = Ok c /\
    Z.of_nat (length c) = 2 * 2 /\
    forall i j : nat, Z.of_nat i < 2 -> Z.of_nat j < 2 ->
      c !! (i * Z.to_nat 2 + j)%nat
      = Some (dot_product (map int32_of_Z [1; 2; 3; 4; 5; 6])
                          (map int32_of_Z [1; 0; 0; 1; 1; 1]) (Z.to_nat 3) (Z.to_nat 2) i j).
Proof.
  assert (Hsize : 2 * 2 <= Z.of_N (vector_max_size (T := int32_t))) by (vm_compute; discriminate).
  exact (proj2 (proj2 (proj2 (proj1 matmul_output_correct int32_t _ (fun _ => false) 2 3 2
           (map int32_of_Z [1; 2; 3; 4; 5; 6]) (map int32_of_Z [1; 0; 0; 1; 1; 1])
           ltac:(lia) ltac:(lia) ltac:(lia) ltac:(lia) ltac:(lia) ltac:(lia)
           eq_refl eq_refl)) Hsize eq_refl)).
Defined.

(** ** Buffers and their bytes *)

Section Codec.

Context {T : Type} `{ElemType T}.


(** Only the first [count * sizeof] bytes of the memory are looked at. *)
Lemma elems_of_prefix count : forall mem rest : list byte,
  length mem = (count * sizeof)%nat ->
  elems_of (T := T) count (mem ++ rest) = elems_of count mem.
Proof.
  induction count as [|count IH]; intros mem rest Hlen; [done|].
  cbn [elems_of]. rewrite take_app_le, drop_app_le by lia.
  by rewrite IH by (rewrite length_drop; lia).
Qed.

Context `{!ElemTypeLaws T}.

Lemma length_mem_of (data : list T) : length (mem_of data) = (length data * sizeof)%nat.
Proof.
  unfold mem_of. induction data as [|x data IH]; [done|].
  cbn. rewrite length_app, to_bytes_length, IH. lia.
Qed.

Lemma elems_of_mem_of (data : list T) : elems_of (length data) (mem_of data) = data.
Proof.
  unfold mem_of. induction data as [|x data IH]; [done|].
  cbn [length map concat elems_of].
  rewrite take_app_length', drop_app_length' by (symmetry; apply to_bytes_length).
  by rewrite of_to_bytes, IH.
Qed.


End Codec.

(** ** Reading and writing files *)

Ltac monad_simpl :=
  cbv beta iota delta [mbind M_bind mret M_ret outcome_bind outcome_ret
                       throw lift log set_file ifstream_open create_directories_for].

(** [read_file] on a directory leaves the environment alone. *)
Lemma read_directory_world {T} `{ElemType T} (path : string) (size : Z) (w : world) :
  (read_directory (T := T) path size w).2 = w.
Proof.
  unfold read_directory. monad_simpl. destruct (negb _); [reflexivity|].
  unfold check_init_len. destruct (_ <? _)%N; [reflexivity|]. cbv beta iota.
  by destruct (negb (size =? 0)).
Qed.

(** On a directory [read_file] returns at most the empty buffer. *)
Lemma read_directory_ok {T} `{ElemType T} (path : string) (size : Z) (w : world)
    (data : list T) :
  (read_directory (T := T) path size w).1 = Ok data -> size = 0 /\ data = [].
Proof.
  unfold read_directory. monad_simpl. destruct (negb (Z.rem _ _ =? 0)); [done|].
  unfold check_init_len. destruct (_ <? _)%N; [done|]. cbv beta iota.
  destruct (Z.eqb_spec size 0) as [->|Hsize]; cbn [negb fst]; [|done].
  intros [= <-]. done.
Qed.

Lemma read_directory_failed_to_read {T} `{ElemType T} (path : string) (size : Z) (w : world)
    (p : string) :
  (read_directory (T := T) path size w).1 = Throw (failed_to_read p) -> size <> 0.
Proof.
  unfold read_directory. monad_simpl. destruct (negb (Z.rem _ _ =? 0)); [done|].
  unfold check_init_len. destruct (_ <? _)%N; [done|]. cbv beta iota.
  by destruct (Z.eqb_spec size 0) as [->|Hsize].
Qed.

Lemma read_directory_not_failed_to_open {T} `{ElemType T} (path : string) (size : Z)
    (w : world) (p : string) :
  (read_directory (T := T) path size w).1 <> Throw (failed_to_open p).
Proof.
  unfold read_directory. monad_simpl. destruct (negb (Z.rem _ _ =? 0)); [done|].
  unfold check_init_len. destruct (_ <? _)%N; [done|]. cbv beta iota.
  by destruct (negb (size =? 0)).
Qed.

Lemma read_directory_not_aligned {T} `{ElemType T} (path : string) (size : Z) (w : world) :
  Z.rem size (Z.of_nat sizeof) <> 0 ->
  read_directory (T := T) path size w = (Throw (size_not_aligned path), w).
Proof.
  intros Hrem. unfold read_directory. monad_simpl.
  apply Z.eqb_neq in Hrem. by rewrite Hrem.
Qed.

(** [read_file] in closed form: the three ways it can end on a regular
    file, and what it does on a directory. *)
Lemma read_file_eval {T} `{ElemType T} (path : string) (w : world) :
  read_file (T := T) path w =
    match files w !! path with
    | None =>
        match directories w path with
        | None => (Throw (failed_to_open path), record_event (ev_open_read path) w)
        | Some size => read_directory path size (record_event (ev_open_read path) w)
        end
    | Some content =>
        if (length content mod sizeof =? 0)%nat
        then (Ok (elems_of (length content / sizeof) content),
              record_event (ev_open_read path) w)
        else (Throw (size_not_aligned path), record_event (ev_open_read path) w)
    end.
Proof.
  unfold read_file. monad_simpl. cbn [files directories record_event].
  destruct (files w !! path) as [content|];
    [|destruct (directories w path) as [size|]; reflexivity].
  cbn [is_fail is_directory seekg_end seekg_beg tellg is_content is_pos].
  destruct (length content mod sizeof =? 0)%nat eqn:Haligned; [|reflexivity].
  cbn [negb]. unfold ifstream_read. cbn [is_fail is_content is_pos].
  rewrite drop_0, firstn_all, Nat.ltb_irrefl. cbn [orb].
  unfold store_bytes. rewrite length_replicate.
  rewrite elems_of_prefix; [reflexivity|].
  apply Nat.eqb_eq, Nat.Div0.div_exact in Haligned.
  cbn [is_content seekg_beg seekg_end]. lia.
Qed.

Lemma ofstream_write_and_close_eval (path : string) (bytes : list byte) (w : world) :
  ofstream_write_and_close path bytes w =
    let taken := match write_limit w path with Some n => take n bytes | None => bytes end in
    if (ofstream_chunk <=? length bytes)%nat && (length taken <? length bytes)%nat
    then (Throw (failed_to_write path), with_file path taken w)
    else (Ok (), with_file path taken w).
Proof.
  unfold ofstream_write_and_close, store. cbv zeta.
  destruct (ofstream_chunk <=? length bytes)%nat; monad_simpl; cbn [andb]; [|reflexivity].
  rewrite Nat.ltb_antisym. by destruct (length bytes <=? _)%nat.
Qed.

Lemma write_file_eval {T} `{ElemType T} (path : string) (data : list T) (w : world) :
  write_file path data w =
    if mkdir_fails w path
    then (Throw (create_directories_failed path (mkdir_what w path)), w) else
    let w1 := record_event (ev_create_directories path) w in
    if open_write_fails w path then (Throw (failed_to_open_for_write path), w1) else
    let bytes := take (length data * sizeof)%nat (mem_of data) in
    let taken := match write_limit w path with Some n => take n bytes | None => bytes end in
    let w2 := with_file path taken (with_file path [] (record_event (ev_open_write path) w1)) in
    if (ofstream_chunk <=? length bytes)%nat && (length taken <? length bytes)%nat
    then (Throw (failed_to_write path), w2)
    else (Ok (), w2).
Proof.
  unfold write_file. monad_simpl.
  destruct (mkdir_fails w path); [reflexivity|]. cbn [open_write_fails record_event].
  destruct (open_write_fails w path); [reflexivity|].
  by rewrite ofstream_write_and_close_eval.
Qed.

(** ** Claims about the tensor codec *)



Lemma read_file_mem_of {T} `{ElemType T} `{!ElemTypeLaws T} (path : string) (data : list T)
    (w : world) :
  files w !! path = Some (mem_of data) ->
  read_file (T := T) path w = (Ok data, record_event (ev_open_read path) w).
Proof.
  intros Hfile. rewrite read_file_eval, Hfile, length_mem_of.
  pose proof (sizeof_pos (T := T)).
  rewrite Nat.Div0.mod_mul, Nat.div_mul by lia. cbn [Nat.eqb].
  by rewrite elems_of_mem_of.
Qed.

(** What the file system keeps of the bytes handed to it. *)
Lemma stored_bytes_eq (limit : option nat) (bytes : list byte) :
  length match limit with Some n => take n bytes | None => bytes end = length bytes ->
  match limit with Some n => take n bytes | None => bytes end = bytes.
Proof.
  destruct limit as [n|]; [|done]. rewrite length_take. intros Hlen.
  apply take_ge. lia.
Qed.

(** After a [write_file] that came past the opening of the file, the
    file holds what the file system took of the buffer's bytes. *)
Lemma write_file_stored {T} `{ElemType T} `{!ElemTypeLaws T} (path : string)
    (data : list T) (w : world) :
  mkdir_fails w path = false ->
  open_write_fails w path = false ->
  files (write_file path data w).2 !! path
  = Some match write_limit w path with
         | Some n => take n (mem_of data)
         | None => mem_of data
         end.
Proof.
  intros Hmkdir Hopen. rewrite write_file_eval, Hmkdir, Hopen. cbv zeta.
  rewrite (take_ge (mem_of data)) by (rewrite length_mem_of; lia).
  destruct (_ && _); cbn [snd files with_file]; by rewrite lookup_insert_eq.
Qed.

(** A write of fewer than 1024 bytes that the file system refuses goes
    unnoticed: [write_file] returns normally and the bytes are not in the
    file. *)
Lemma write_file_silent_loss :
  let w := World ∅ (fun _ => None) (fun _ => false) (fun _ => "") (fun _ => false)
                 (fun _ => Some 0%nat) (fun _ => false) [] in
  (write_file "out/t.bin" (map int32_of_Z [1; 2; 3; 4]) w).1 = Ok () /\
  files (write_file "out/t.bin" (map int32_of_Z [1; 2; 3; 4]) w).2 !! "out/t.bin" = Some [] /\
  (read_file (T := int32_t) "out/t.bin"
     (write_file "out/t.bin" (map int32_of_Z [1; 2; 3; 4]) w).2).1 = Ok [].
Proof. cbv zeta. split; [by vm_compute|]. split; by vm_compute. Qed.

(** C5: for every element type and every buffer of L elements, after
    [write_file] has returned normally, whenever the file holds
    [L * sizeof(T)] bytes, that is, whenever the bytes were written in
    full, the file holds the bytes of the buffer and [read_file] at the
    same type gives the buffer again. The bytes are written in full
    whenever the directories can be created, the file can be opened and
    the file system takes as many bytes. *)
Theorem write_read_roundtrip :
  (forall (T : Type) (ET : ElemType T) (laws : ElemTypeLaws T)
          (path : string) (data : list T) (w w' : world) (stored : list byte),
     write_file path data w = (Ok (), w') ->
     files w' !! path = Some stored ->
     length stored = (length data * sizeof)%nat ->
     stored = mem_of data /\
     (read_file (T := T) path w').1 = Ok data) /\
  (forall (T : Type) (ET : ElemType T) (laws : ElemTypeLaws T)
          (path : string) (data : list T) (w : world),
     mkdir_fails w path = false ->
     open_write_fails w path = false ->
     (forall n, write_limit w path = Some n -> (length data * sizeof <= n)%nat) ->
     (write_file path data w).1 = Ok () /\
     files (write_file path data w).2 !! path = Some (mem_of data) /\
     (read_file (T := T) path (write_file path data w).2).1 = Ok data).
Proof.
  split.
  - intros T ET laws path data w w' stored Hwrite Hfile Hlen.
    assert (Hmkdir : mkdir_fails w path = false).
    { rewrite write_file_eval in Hwrite. by destruct (mkdir_fails w path). }
    assert (Hopen : open_write_fails w path = false).
    { rewrite write_file_eval, Hmkdir in Hwrite. by destruct (open_write_fails w path). }
    pose proof (write_file_stored path data w Hmkdir Hopen) as Hstored.
    rewrite Hwrite in Hstored. cbn [snd] in Hstored.
    rewrite Hfile in Hstored. injection Hstored as Hstored.
    assert (Hall : stored = mem_of data).
    { rewrite Hstored. apply stored_bytes_eq. rewrite <- Hstored, Hlen.
      by rewrite length_mem_of. }
    split; [exact Hall|]. rewrite Hall in Hfile.
    by rewrite (read_file_mem_of path data w' Hfile).
  - intros T ET laws path data w Hmkdir Hopen Hlimit.
    pose proof (write_file_stored path data w Hmkdir Hopen) as Hstored.
    assert (Hall : match write_limit w path with
                   | Some n => take n (mem_of data)
                   | None => mem_of data
                   end = mem_of data).
    { destruct (write_limit w path) as [n|] eqn:Hn; [|done].
      apply take_ge. rewrite length_mem_of. by apply Hlimit. }
    rewrite Hall in Hstored. split; [|split; [exact Hstored|]].
    + rewrite write_file_eval, Hmkdir, Hopen. cbv zeta.
      rewrite (take_ge (mem_of data)) by (rewrite length_mem_of; lia).
      rewrite Hall, Nat.ltb_irrefl, andb_false_r. reflexivity.
    + by rewrite (read_file_mem_of path data _ Hstored).
Qed.

Lemma write_read_roundtrip_witness :
  (read_file (T := float) "out/t.bin"
     (write_file "out/t.bin" (map float_of_Z [1; 2; 3; 4]) (plain_world ∅)).2).1
  = Ok (map float_of_Z [1; 2; 3; 4]).
Proof.
  assert (Hwrite : write_file "out/t.bin" (map float_of_Z [1; 2; 3; 4]) (plain_world ∅)
                   = (Ok (), (write_file "out/t.bin" (map float_of_Z [1; 2; 3; 4])
                                         (plain_world ∅)).2)) by (by vm_compute).
  assert (Hfile : files (write_file "out/t.bin" (map float_of_Z [1; 2; 3; 4])
                                    (plain_world ∅)).2 !! "out/t.bin"
                  = Some (mem_of (map float_of_Z [1; 2; 3; 4]))) by (by vm_compute).
  exact (proj2 (proj1 write_read_roundtrip float _ _ "out/t.bin"
                  (map float_of_Z [1; 2; 3; 4]) (plain_world ∅) _ _ Hwrite Hfile eq_refl)).
Defined.

(** C10: at every element type, reading a file of zero bytes succeeds
    and gives the empty buffer: zero is a multiple of [sizeof(T)], and
    reading zero bytes does not fail. *)
Theorem read_file_empty (T : Type) (ET : ElemType T) (path : string) (w : world) :
  files w !! path = Some [] ->
  (read_file (T := T) path w).1 = Ok [].
Proof.
  intros Hfile. rewrite read_file_eval, Hfile. cbn [length].
  by rewrite Nat.Div0.mod_0_l, Nat.Div0.div_0_l.
Qed.

Lemma read_file_empty_witness :
  (read_file (T := float) "data/empty.bin" (plain_world example_inputs)).1 = Ok [] /\
  (read_file (T := int32_t) "data/empty.bin" (plain_world example_inputs)).1 = Ok [].
Proof.
  split; apply read_file_empty; by vm_compute.
Defined.

(** ** Claims about the dtype dispatch *)

Lemma resolve_dtype_unsupported tag :
  tag <> "float32" -> tag <> "int32" -> resolve_dtype tag = Throw (unsupported_dtype tag).
Proof.
  intros Hf Hi. unfold resolve_dtype.
  apply String.eqb_neq in Hf, Hi. by rewrite Hf, Hi.
Qed.

(** C8: the dispatch on the dtype tag succeeds exactly on the strings
    "float32" and "int32", compared as they are, giving [Float32] and
    [Int32]; on every other string it fails with an unsupported-dtype
    error that carries the tag; "float64" is such a string. *)
Theorem resolve_dtype_exact :
  (forall tag : string,
     (resolve_dtype tag = Ok Float32 <-> tag = "float32") /\
     (resolve_dtype tag = Ok Int32 <-> tag = "int32") /\
     (tag <> "float32" -> tag <> "int32" ->
      resolve_dtype tag = Throw (unsupported_dtype tag) /\
      fails_with (resolve_dtype tag) UnsupportedDtypeError /\
      what (unsupported_dtype tag) = "unsupported dtype: " +:+ tag)) /\
  resolve_dtype "float64" = Throw (unsupported_dtype "float64") /\
  resolve_dtype "Float32" = Throw (unsupported_dtype "Float32") /\
  resolve_dtype "int32 " = Throw (unsupported_dtype "int32 ").
Proof.
  split; [|by vm_compute].
  intros tag. unfold resolve_dtype.
  destruct (String.eqb_spec tag "float32") as [->|Hf].
  { split; [done|]. split; [split; discriminate|]. done. }
  destruct (String.eqb_spec tag "int32") as [->|Hi].
  { split; [split; discriminate|]. split; [done|]. done. }
  split; [split; [discriminate|done]|]. split; [split; [discriminate|done]|].
  intros _ _. split; [reflexivity|]. split; [by eexists|reflexivity].
Qed.

Lemma resolve_dtype_exact_witness :
  resolve_dtype "float32" = Ok Float32 /\
  resolve_dtype "int32" = Ok Int32 /\
  fails_with (resolve_dtype "float64") UnsupportedDtypeError.
Proof.
  split; [|split].
  - by apply (proj1 resolve_dtype_exact "float32").
  - by apply (proj1 resolve_dtype_exact "int32").
  - apply (proj1 resolve_dtype_exact "float64"); discriminate.
Defined.

(** ** Claims about the matmul run *)

Lemma read_file_world {T} `{ElemType T} (path : string) (w : world) :
  (read_file (T := T) path w).2 = record_event (ev_open_read path) w.
Proof.
  rewrite read_file_eval. destruct (files w !! path); [by destruct (_ =? _)%nat|].
  destruct (directories w path); [apply read_directory_world|reflexivity].
Qed.

Lemma count_a_value shape :
  Z.of_N (count_a shape) = (shape_m shape * shape_k shape) mod 2 ^ 64.
Proof.
  unfold count_a. rewrite of_int64_mul. rewrite Z2N.id; [done|].
  apply Z.mod_pos_bound. lia.
Qed.

Lemma count_b_value shape :
  Z.of_N (count_b shape) = (shape_k shape * shape_n shape) mod 2 ^ 64.
Proof.
  unfold count_b. rewrite of_int64_mul. rewrite Z2N.id; [done|].
  apply Z.mod_pos_bound. lia.
Qed.

(** The run up to the size check. *)
Lemma run_matmul_mismatch (T : Type) `{ElemType T} opts shape (w w1 w2 : world) (a b : list T) :
  read_file (T := T) (input0 opts) w = (Ok a, w1) ->
  read_file (T := T) (input1 opts) w1 = (Ok b, w2) ->
  N.of_nat (length a) <> count_a shape \/ N.of_nat (length b) <> count_b shape ->
  run_matmul T opts shape w = (Throw input_sizes_mismatch, w2) /\
  files w2 = files w /\
  trace w2 = trace w ++ [ev_open_read (input0 opts); ev_open_read (input1 opts)].
Proof.
  intros Hread_a Hread_b Hsizes. split.
  - unfold run_matmul. monad_simpl. rewrite Hread_a, Hread_b.
    assert (negb (N.of_nat (length a) =? count_a shape)%N
            || negb (N.of_nat (length b) =? count_b shape)%N = true) as ->; [|reflexivity].
    destruct Hsizes as [Hne|Hne]; apply N.eqb_neq in Hne; rewrite Hne; cbn;
      [reflexivity|apply orb_true_r].
  - pose proof (read_file_world (T := T) (input0 opts) w) as Hw1.
    pose proof (read_file_world (T := T) (input1 opts) w1) as Hw2.
    rewrite Hread_a in Hw1. rewrite Hread_b in Hw2. cbn [snd] in Hw1, Hw2. subst w1 w2.
    cbn [files trace record_event]. by rewrite <- app_assoc.
Qed.

(** The run past the size check. *)
Lemma run_matmul_accepted (T : Type) `{ElemType T} opts shape (w w1 w2 : world)
    (a b : list T) :
  read_file (T := T) (input0 opts) w = (Ok a, w1) ->
  read_file (T := T) (input1 opts) w1 = (Ok b, w2) ->
  N.of_nat (length a) = count_a shape ->
  N.of_nat (length b) = count_b shape ->
  run_matmul T opts shape w
  = match new_vector (new_fails w2) (count_out shape) with
    | Ok out =>
        (out ← lift (matmul_kernel a b out (SizeT.of_int64 (shape_m shape))
                                   (SizeT.of_int64 (shape_k shape))
                                   (SizeT.of_int64 (shape_n shape)));
         write_file (output0 opts) out)
          (record_event ev_kernel (record_event (ev_alloc_output (count_out shape)) w2))
    | Throw e => (Throw e, record_event (ev_alloc_output (count_out shape)) w2)
    | Undefined => (Undefined, record_event (ev_alloc_output (count_out shape)) w2)
    end.
Proof.
  intros Hread_a Hread_b Ha Hb.
  unfold run_matmul. monad_simpl. rewrite Hread_a, Hread_b, Ha, Hb, !N.eqb_refl.
  cbn [negb orb new_fails record_event].
  by destruct (new_vector (new_fails w2) (count_out shape)).
Qed.

(** The run past the size check when the output buffer is granted. *)
Lemma run_matmul_granted (T : Type) `{ElemType T} opts shape (w w1 w2 : world)
    (a b out : list T) :
  read_file (T := T) (input0 opts) w = (Ok a, w1) ->
  read_file (T := T) (input1 opts) w1 = (Ok b, w2) ->
  N.of_nat (length a) = count_a shape ->
  N.of_nat (length b) = count_b shape ->
  new_vector (new_fails w2) (count_out shape) = Ok out ->
  run_matmul T opts shape w
  = (out ← lift (matmul_output (new_fails w2) shape a b); write_file (output0 opts) out)
      (record_event ev_kernel (record_event (ev_alloc_output (count_out shape)) w2)).
Proof.
  intros Hread_a Hread_b Ha Hb Hout.
  rewrite (run_matmul_accepted T opts shape w w1 w2 a b) by done.
  unfold matmul_output. fold (count_out shape). by rewrite Hout.
Qed.

Lemma matmul_kernel_no_columns {T} `{ElemType T} (a b c : list T) (m k : N) :
  matmul_kernel a b c m k 0 = Ok c.
Proof. unfold matmul_kernel. cbn [N.to_nat for_loop]. apply for_loop_skip. Qed.

Lemma read_file_empty_eval {T} `{ElemType T} (path : string) (w : world) :
  files w !! path = Some [] ->
  read_file (T := T) path w = (Ok [], record_event (ev_open_read path) w).
Proof.
  intros Hfile. rewrite read_file_eval, Hfile. cbn [length].
  by rewrite Nat.Div0.mod_0_l, Nat.Div0.div_0_l.
Qed.

(** The shape (2^32, 2^32, 0) on two empty operands: the kernel has no
    column to fill and returns the empty output. *)
Lemma matmul_output_overflow_empty (refused : N -> bool) :
  matmul_output refused (Shape 4294967296 4294967296 0) (@nil int32_t) [] = Ok [].
Proof.
  unfold matmul_output. cbn [shape_n]. change (SizeT.of_int64 0) with 0%N.
  change (SizeT.of_int64 (Int64.mul 4294967296 0)) with 0%N.
  rewrite new_vector_empty. outcome_simpl.
  apply matmul_kernel_no_columns.
Qed.

Lemma run_matmul_overflow_eval :
  run_matmul int32_t empty_inputs_options (Shape 4294967296 4294967296 0)
             (plain_world example_inputs)
  = write_file (output0 empty_inputs_options) (@nil int32_t)
      (record_event ev_kernel
         (record_event (ev_alloc_output (count_out (Shape 4294967296 4294967296 0)))
            (record_event (ev_open_read "data/empty.bin")
               (record_event (ev_open_read "data/empty.bin")
                  (plain_world example_inputs))))).
Proof.
  rewrite (run_matmul_granted int32_t empty_inputs_options _ _
             (record_event (ev_open_read "data/empty.bin") (plain_world example_inputs))
             (record_event (ev_open_read "data/empty.bin")
                (record_event (ev_open_read "data/empty.bin")
                   (plain_world example_inputs))) [] [] []).
  - monad_simpl. rewrite matmul_output_overflow_empty. reflexivity.
  - apply read_file_empty_eval. by vm_compute.
  - apply read_file_empty_eval. by vm_compute.
  - by vm_compute.
  - by vm_compute.
  - by vm_compute.
Qed.

Lemma main_try_overflow_eval :
  main_try empty_inputs_options (plain_world example_inputs)
  = run_matmul int32_t empty_inputs_options (Shape 4294967296 4294967296 0)
               (plain_world example_inputs).
Proof.
  unfold main_try.
  assert (Hparse : parse_shapes (shapes_json empty_inputs_options)
                   = Ok (Shape 4294967296 4294967296 0)) by (by vm_compute).
  assert (Htag : resolve_dtype (dtype empty_inputs_options) = Ok Int32) by (by vm_compute).
  assert (Hshapes : String.eqb (shapes_json empty_inputs_options) "" = false)
    by (by vm_compute).
  rewrite Hshapes. monad_simpl. rewrite Hparse, Htag. cbv beta iota. reflexivity.
Qed.

(** C6, the statement as claimed fails: for the shape (2^32, 2^32, 0) the
    product m*k is [2^64], which the 64-bit multiplication turns into 0;
    with two empty operand files the check passes although the length of
    [a], 0, is not m*k, and the run goes on to write its (empty) output. *)
Lemma run_matmul_overflow_accepted :
  (read_file (T := int32_t) "data/empty.bin" (plain_world example_inputs)).1 = Ok [] /\
  Z.of_nat (length (@nil int32_t)) <> 4294967296 * 4294967296 /\
  (run_matmul int32_t empty_inputs_options (Shape 4294967296 4294967296 0)
              (plain_world example_inputs)).1 = Ok () /\
  files (run_matmul int32_t empty_inputs_options (Shape 4294967296 4294967296 0)
                    (plain_world example_inputs)).2 !! "out/output0.bin" = Some [] /\
  parse_shapes "4294967296,4294967296,4294967296,0"
  = Ok (Shape 4294967296 4294967296 0) /\
  (main empty_inputs_options (plain_world example_inputs)).1 = Ok (0, None).
Proof.
  split; [by vm_compute|]. split; [cbn; lia|].
  rewrite run_matmul_overflow_eval.
  split; [by vm_compute|]. split; [by vm_compute|]. split; [by vm_compute|].
  unfold main. rewrite main_try_overflow_eval, run_matmul_overflow_eval.
  vm_compute. reflexivity.
Qed.

(** C6, amended: for every shape and every pair of decoded operand
    buffers, the run fails with a size-mismatch error whenever the length
    of [a] differs from m*k or the length of [b] from k*n, the products
    being the ones the code computes in 64-bit arithmetic; these are the
    exact products whenever m*k and k*n lie between 0 and [2^64]. The
    check comes before the output buffer is allocated, the kernel is
    called or the output file is opened: the failed run leaves every file
    as it was and has only opened the two inputs. *)
Theorem run_matmul_size_check (T : Type) (ET : ElemType T) (opts : Options)
    (shape : MatmulShape) (w w1 w2 : world) (a b : list T) :
  read_file (T := T) (input0 opts) w = (Ok a, w1) ->
  read_file (T := T) (input1 opts) w1 = (Ok b, w2) ->
  let fails_before_output :=
    run_matmul T opts shape w = (Throw input_sizes_mismatch, w2) /\
    kind_of input_sizes_mismatch = SizeMismatchError /\
    files w2 = files w /\
    trace w2 = trace w ++ [ev_open_read (input0 opts); ev_open_read (input1 opts)] in
  (N.of_nat (length a) <> count_a shape \/ N.of_nat (length b) <> count_b shape ->
   fails_before_output) /\
  (Z.of_nat (length a) <> (shape_m shape * shape_k shape) mod 2 ^ 64 \/
   Z.of_nat (length b) <> (shape_k shape * shape_n shape) mod 2 ^ 64 ->
   fails_before_output) /\
  (0 <= shape_m shape * shape_k shape < 2 ^ 64 ->
   0 <= shape_k shape * shape_n shape < 2 ^ 64 ->
   Z.of_nat (length a) <> shape_m shape * shape_k shape \/
   Z.of_nat (length b) <> shape_k shape * shape_n shape ->
   fails_before_output).
Proof.
  intros Hread_a Hread_b fails_before_output.
  assert (Hmachine : N.of_nat (length a) <> count_a shape
                     \/ N.of_nat (length b) <> count_b shape -> fails_before_output).
  { intros Hsizes.
    destruct (run_matmul_mismatch T opts shape w w1 w2 a b Hread_a Hread_b Hsizes)
      as (Hrun & Hfiles & Htrace).
    by repeat split. }
  assert (Hmod : Z.of_nat (length a) <> (shape_m shape * shape_k shape) mod 2 ^ 64 \/
                 Z.of_nat (length b) <> (shape_k shape * shape_n shape) mod 2 ^ 64 ->
                 fails_before_output).
  { intros Hsizes. apply Hmachine.
    rewrite <- count_a_value, <- count_b_value in Hsizes. lia. }
  split; [exact Hmachine|]. split; [exact Hmod|].
  intros Hmk Hkn Hsizes. apply Hmod. by rewrite !Z.mod_small.
Qed.

Lemma run_matmul_size_check_witness :
  run_matmul int32_t (example_options "2,3,3,2") (Shape 2 3 2) (plain_world example_inputs)
  = (Throw input_sizes_mismatch,
     record_event (ev_open_read "data/input1.bin")
       (record_event (ev_open_read "data/input0.bin") (plain_world example_inputs))) /\
  kind_of input_sizes_mismatch = SizeMismatchError /\
  files (record_event (ev_open_read "data/input1.bin")
           (record_event (ev_open_read "data/input0.bin") (plain_world example_inputs)))
  = files (plain_world example_inputs) /\
  trace (record_event (ev_open_read "data/input1.bin")
           (record_event (ev_open_read "data/input0.bin") (plain_world example_inputs)))
  = trace (plain_world example_inputs)
    ++ [ev_open_read (input0 (example_options "2,3,3,2"));
        ev_open_read (input1 (example_options "2,3,3,2"))].
Proof.
  assert (Hread_a : read_file (T := int32_t) (input0 (example_options "2,3,3,2"))
                      (plain_world example_inputs)
                    = (Ok (map int32_of_Z [1; 2; 3; 4]),
                       record_event (ev_open_read "data/input0.bin")
                         (plain_world example_inputs))) by (by vm_compute).
  assert (Hread_b : read_file (T := int32_t) (input1 (example_options "2,3,3,2"))
                      (record_event (ev_open_read "data/input0.bin")
                         (plain_world example_inputs))
                    = (Ok (map int32_of_Z [1; 0; 0; 1]),
                       record_event (ev_open_read "data/input1.bin")
                         (record_event (ev_open_read "data/input0.bin")
                            (plain_world example_inputs)))) by (by vm_compute).
  apply (proj2 (proj2 (run_matmul_size_check int32_t _ _ (Shape 2 3 2) _ _ _ _ _
                         Hread_a Hread_b))); cbn; lia.
Defined.

(** ** The runners end to end *)

(** In matmul_runner the shape is parsed before the dtype is looked at: an
    unsupported dtype is reported once the shape has been accepted, and
    nothing has been read or written by then. *)
Lemma main_try_unsupported_dtype opts shape (w : world) :
  shapes_json opts <> "" ->
  parse_shapes (shapes_json opts) = Ok shape ->
  dtype opts <> "float32" -> dtype opts <> "int32" ->
  main_try opts w = (Throw (unsupported_dtype (dtype opts)), w).
Proof.
  intros Hshapes Hparse Hf Hi. unfold main_try.
  apply String.eqb_neq in Hshapes. rewrite Hshapes. monad_simpl.
  by rewrite Hparse, resolve_dtype_unsupported.
Qed.

(** In op_runner the output directory is created first. *)
Lemma op_main_try_unsupported_dtype opts (w : world) :
  mkdir_fails w (OpRunner.output opts) = false ->
  OpRunner.dtype opts <> "float32" -> OpRunner.dtype opts <> "int32" ->
  OpRunner.main_try opts w
  = (Throw (unsupported_dtype (OpRunner.dtype opts)),
     record_event (ev_create_directories (OpRunner.output opts)) w).
Proof.
  intros Hmkdir Hf Hi. unfold OpRunner.main_try. monad_simpl.
  by rewrite Hmkdir, resolve_dtype_unsupported.
Qed.

(** The scenario of the specification: float32 inputs [1,2,3,4] and
    [1,0,0,1] with the shapes text "2x2,2x2" give the output [1,2,3,4] and
    the exit status 0. *)
Lemma main_scenario :
  (main scenario_options (plain_world scenario_inputs)).1 = Ok (0, None) /\
  files (main scenario_options (plain_world scenario_inputs)).2 !! "out/output0.bin"
  = Some (mem_of (map float_of_Z [1; 2; 3; 4])).
Proof. by vm_compute. Qed.

(** A failure is reported on [std::cerr] with the exit status 1. *)
Lemma main_reports_failure :
  (main (example_options "2,3") (plain_world example_inputs)).1
  = Ok (1, Some "matmul_runner failed: shapes must include at least two input shapes").
Proof. by vm_compute. Qed.

(** ** The elementwise addition of op_runner *)

Lemma add_vectors_size_mismatch {T} `{ElemType T} (a b : list T) :
  length a <> length b -> fails_with (OpRunner.add_vectors a b) SizeMismatchError.
Proof.
  intros Hne. unfold OpRunner.add_vectors.
  apply Nat.eqb_neq in Hne. rewrite Hne. by eexists.
Qed.

Lemma add_vectors_correct {T} `{ElemType T} (a b : list T) :
  length a = length b ->
  exists out,
    OpRunner.add_vectors a b = Ok out /\
    (length out = length a /\
     forall i, (i < length a)%nat ->
       out !! i = Some (elt_add (nth i a elt_zero) (nth i b elt_zero))).
Proof.
  intros Hlen. unfold OpRunner.add_vectors.
  rewrite Hlen, Nat.eqb_refl. cbn [negb]. rewrite <- Hlen.
  apply (for_loop_invariant (fun t (out : list T) =>
    length out = length a /\
    forall i, (i < t)%nat ->
      out !! i = Some (elt_add (nth i a elt_zero) (nth i b elt_zero)))).
  - split; [apply length_replicate|lia].
  - intros t out Ht [Hout Hdone]. rewrite N.add_0_l, Nat2N.id.
    rewrite (vec_at_nth a t elt_zero), (vec_at_nth b t elt_zero) by lia.
    outcome_simpl. unfold vec_set.
    assert (Hidx : (t <? length out)%nat = true) by (apply Nat.ltb_lt; lia).
    rewrite Hidx. eexists. split; [reflexivity|]. split; [by rewrite length_insert|].
    intros i Hi. destruct (decide (i = t)) as [->|Hne].
    + apply list_lookup_insert_eq. lia.
    + rewrite list_lookup_insert_ne by done. apply Hdone. lia.
Qed.

(** The whole program on the shapes text "4294967296,0,0,4294967296" and
    two empty inputs: both size checks pass and the kernel runs into
    undefined behaviour. *)
Lemma main_no_inner_dimension :
  (main no_inner_dimension_options (plain_world example_inputs)).1 = Undefined.
Proof.
  assert (Hparse : parse_shapes (shapes_json no_inner_dimension_options)
                   = Ok (Shape 4294967296 0 4294967296)) by (by vm_compute).
  assert (Htag : resolve_dtype (dtype no_inner_dimension_options) = Ok Int32)
    by (by vm_compute).
  assert (Hshapes : String.eqb (shapes_json no_inner_dimension_options) "" = false)
    by (by vm_compute).
  unfold main, main_try. rewrite Hshapes. monad_simpl. rewrite Hparse, Htag.
  cbv beta iota.
  rewrite (run_matmul_granted int32_t no_inner_dimension_options _ _
             (record_event (ev_open_read "data/empty.bin") (plain_world example_inputs))
             (record_event (ev_open_read "data/empty.bin")
                (record_event (ev_open_read "data/empty.bin")
                   (plain_world example_inputs))) [] [] []).
  - monad_simpl. rewrite matmul_output_no_inner_dimension. reflexivity.
  - apply read_file_empty_eval. by vm_compute.
  - apply read_file_empty_eval. by vm_compute.
  - by vm_compute.
  - by vm_compute.
  - by vm_compute.
Qed.

(** The whole program on the shapes text "2147483648,0,0,2147483648" and
    two empty inputs: the size checks pass, the output would have [2^62]
    elements and its constructor throws; the program reports the
    library's message and exits with status 1. *)
Lemma main_length_error :
  main (mkOptions "int32" "data/empty.bin" "data/empty.bin" "out/output0.bin"
                  "2147483648,0,0,2147483648") (plain_world example_inputs)
  = (Ok (1, Some "matmul_runner failed: cannot create std::vector larger than max_size()"),
     record_event (ev_alloc_output 4611686018427387904)
       (record_event (ev_open_read "data/empty.bin")
          (record_event (ev_open_read "data/empty.bin") (plain_world example_inputs)))).
Proof. by vm_compute. Qed.

(** * Further properties of the runners *)

(** ** The digit scanner, piecewise *)

Lemma list_ascii_of_string_app (a b : string) :
  list_ascii_of_string (a +:+ b) = list_ascii_of_string a ++ list_ascii_of_string b.
Proof. induction a as [|c a IH]; [done|]. cbn. by rewrite <- IH. Qed.

(** The numbers already pushed are never touched again. *)
Lemma scan_values_prefix s : forall (vs vs' : list Z) (cur : Z) (inn : bool),
  scan_finish (fold_left scan_char s (Scan (vs ++ vs') cur inn))
  = vs ++ scan_finish (fold_left scan_char s (Scan vs' cur inn)).
Proof.
  induction s as [|c s IH]; intros vs vs' cur inn.
  - unfold scan_finish. cbn. destruct inn; [by rewrite app_assoc|done].
  - cbn [fold_left]. unfold scan_char at 2 4. cbn [values current in_number].
    destruct (is_digit c); [apply IH|].
    destruct inn; [|apply IH]. rewrite <- app_assoc. apply IH.
Qed.

(** Outside a number the accumulator is zero. *)
Lemma scan_current_reset s : forall st,
  (in_number st = false -> current st = 0) ->
  in_number (fold_left scan_char s st) = false -> current (fold_left scan_char s st) = 0.
Proof.
  induction s as [|c s IH]; intros st Hst; [exact Hst|].
  cbn [fold_left]. apply IH. unfold scan_char.
  destruct (is_digit c); [discriminate|]. destruct (in_number st) eqn:Hin; [done|].
  intros _. by apply Hst.
Qed.

(** X1: a character that is not a digit cuts a text in two that are
    scanned independently: the numbers of [a c b] are those of [a]
    followed by those of [b]. *)
Theorem extract_numbers_separator (a b : string) (c : ascii) :
  is_digit c = false ->
  extract_numbers (a +:+ String c b) = extract_numbers a ++ extract_numbers b.
Proof.
  intros Hc. unfold extract_numbers.
  rewrite list_ascii_of_string_app. cbn [list_ascii_of_string].
  rewrite fold_left_app. cbn [fold_left].
  pose proof (scan_current_reset (list_ascii_of_string a) (Scan [] 0 false) (fun _ => eq_refl))
    as Hreset.
  destruct (fold_left scan_char (list_ascii_of_string a) (Scan [] 0 false))
    as [vs cur inn] eqn:Hscan.
  unfold scan_char at 2. rewrite Hc. cbn [in_number values current] in *.
  destruct inn.
  - unfold scan_finish at 2. cbn [in_number values current].
    rewrite <- (app_nil_r (vs ++ [cur])) at 1. apply scan_values_prefix.
  - rewrite (Hreset eq_refl). unfold scan_finish at 2. cbn [in_number values].
    rewrite <- (app_nil_r vs) at 1. apply scan_values_prefix.
Qed.

Lemma extract_numbers_separator_witness :
  extract_numbers ("2x3" +:+ String "," "3x4") = extract_numbers "2x3" ++ extract_numbers "3x4".
Proof. apply extract_numbers_separator. reflexivity. Defined.

(** X2: [extract_numbers] returns no number exactly for the texts without
    any decimal digit (the empty text among them). *)
Theorem extract_numbers_nil_iff (text : string) :
  extract_numbers text = []
  <-> Forall (fun c => is_digit c = false) (list_ascii_of_string text).
Proof.
  rewrite extract_numbers_runs. split.
  - intros Hnil. pose proof (digit_runs_maximal (list_ascii_of_string text)) as Hruns.
    destruct (digit_runs (list_ascii_of_string text)); [|discriminate].
    by inversion Hruns.
  - intros Hseps. rewrite <- (app_nil_r (list_ascii_of_string text)).
    by rewrite digit_runs_separators.
Qed.

Lemma extract_numbers_nil_iff_witness :
  extract_numbers "[[m,k],[k,n]]" = [].
Proof.
  apply (proj2 (extract_numbers_nil_iff "[[m,k],[k,n]]")).
  cbn. repeat (constructor; [reflexivity|]). constructor.
Defined.

(** ** The command line of matmul_runner *)

Lemma last_value_found (flags : list string) (items : list arg_item) :
  forall (found : option string) (init : string),
  default init (fold_left (fun found item =>
      match item with
      | flag_value flag value => if bool_decide (flag ∈ flags) then Some value else found
      | lone _ => found
      end) items found)
  = default (default init found) (last_value flags items).
Proof.
  unfold last_value. induction items as [|item items IH]; intros found init.
  - by destruct found.
  - cbn [fold_left]. rewrite IH. symmetry. rewrite IH. symmetry.
    destruct item as [flag value|arg]; [|by destruct found].
    destruct (bool_decide (flag ∈ flags)); by destruct found.
Qed.

Lemma last_value_cons (flags : list string) (item : arg_item) (items : list arg_item)
    (init : string) :
  default init (last_value flags (item :: items))
  = default match item with
            | flag_value flag value => if bool_decide (flag ∈ flags) then value else init
            | lone _ => init
            end (last_value flags items).
Proof.
  unfold last_value at 1. cbn [fold_left]. rewrite last_value_found.
  destruct item as [flag value|arg]; [|done].
  by destruct (bool_decide (flag ∈ flags)).
Qed.

Lemma parse_args_from_items (items : list arg_item) (trailing : list string) :
  Forall matmul_item items ->
  (length trailing <= 1)%nat ->
  forall opt : Options,
  parse_args_from (concat (map item_args items) ++ trailing) opt
  = mkOptions (default (dtype opt) (last_value ["--dtype"; "-t"] items))
              (default (input0 opt) (last_value ["--input0"] items))
              (default (input1 opt) (last_value ["--input1"] items))
              (default (output0 opt) (last_value ["--output0"] items))
              (default (shapes_json opt) (last_value ["--shapes"] items)).
Proof.
  intros Hitems Htrailing. induction Hitems as [|item items Hitem _ IH]; intros opt.
  - destruct opt. by destruct trailing as [|x [|y trailing]]; [..|cbn in Htrailing; lia].
  - rewrite !last_value_cons. destruct item as [flag value|arg]; cbn [map concat item_args app].
    + unfold matmul_item, matmul_flags in Hitem.
      repeat (apply elem_of_cons in Hitem as [->|Hitem]);
        [..|by apply elem_of_nil in Hitem]; cbn [parse_args_from String.eqb Ascii.eqb
          Bool.eqb orb]; rewrite IH; vm_compute; reflexivity.
    + unfold matmul_item, matmul_flags in Hitem.
      assert (Hne : forall flag, flag ∈ matmul_flags -> String.eqb arg flag = false).
      { intros flag Hflag. apply String.eqb_neq. intros ->. by apply Hitem. }
      specialize (IH opt).
      destruct (concat (map item_args items) ++ trailing) as [|value rest'] eqn:Hrest.
      * exact IH.
      * cbn [parse_args_from].
        rewrite !Hne by (unfold matmul_flags; set_solver). exact IH.
Qed.

(** Every command line is a list of recognised flag-value pairs and lone
    arguments, with at most one argument left over at the end. *)
Lemma command_line_items (n : nat) : forall args : list string,
  (length args <= n)%nat ->
  exists (items : list arg_item) (trailing : list string),
    Forall matmul_item items /\ (length trailing <= 1)%nat /\
    args = concat (map item_args items) ++ trailing.
Proof.
  induction n as [|n IH]; intros args Hlen.
  - destruct args; [|cbn in Hlen; lia].
    exists [], []. split; [constructor|]. split; [cbn; lia|reflexivity].
  - destruct args as [|arg [|value rest]].
    + exists [], []. split; [constructor|]. split; [cbn; lia|reflexivity].
    + exists [], [arg]. split; [constructor|]. split; [cbn; lia|reflexivity].
    + destruct (decide (arg ∈ matmul_flags)) as [Hflag|Hflag].
      * destruct (IH rest) as (items & trailing & Hitems & Htrailing & ->);
          [cbn in Hlen; lia|].
        exists (flag_value arg value :: items), trailing.
        split; [by constructor|]. split; [exact Htrailing|reflexivity].
      * destruct (IH (value :: rest)) as (items & trailing & Hitems & Htrailing & Heq);
          [cbn in Hlen |- *; lia|].
        exists (lone arg :: items), trailing.
        split; [by constructor|]. split; [exact Htrailing|]. cbn. by rewrite <- Heq.
Qed.

(** X3: [parse_args] reads its command line as recognised flags, each
    taking the next argument as its value whatever that argument is,
    and passes over everything else, a flag in the last position
    included; each option ends with the value of the last pair that
    names it, or with its default. Every command line reads this way. *)
Theorem parse_args_last_values :
  (forall (prog : string) (items : list arg_item) (trailing : list string),
     Forall matmul_item items ->
     (length trailing <= 1)%nat ->
     parse_args (prog :: concat (map item_args items) ++ trailing)
     = mkOptions (default "float32" (last_value ["--dtype"; "-t"] items))
                 (default "data/input0.bin" (last_value ["--input0"] items))
                 (default "data/input1.bin" (last_value ["--input1"] items))
                 (default "out/output0.bin" (last_value ["--output0"] items))
                 (default "" (last_value ["--shapes"] items))) /\
  (forall args : list string,
     exists (items : list arg_item) (trailing : list string),
       Forall matmul_item items /\ (length trailing <= 1)%nat /\
       args = concat (map item_args items) ++ trailing).
Proof.
  split.
  - intros prog items trailing Hitems Htrailing. unfold parse_args. cbn [tail].
    by rewrite parse_args_from_items.
  - intros args. by apply (command_line_items (length args)).
Qed.

Lemma parse_args_last_values_witness :
  parse_args ("matmul_runner" :: concat (map item_args
     [flag_value "-t" "float32"; lone "verbose"; flag_value "--shapes" "2x3,3x4";
      flag_value "--dtype" "--input0"; flag_value "--shapes" "2x2,2x2"]) ++ ["--output0"])
  = mkOptions "--input0" "data/input0.bin" "data/input1.bin" "out/output0.bin" "2x2,2x2".
Proof.
  apply (proj1 parse_args_last_values "matmul_runner").
  - apply (bool_decide_unpack _). by vm_compute.
  - cbn. lia.
Defined.

Lemma parse_args_from_step (arg value : string) (rest : list string) (opt : Options) :
  parse_args_from (arg :: value :: rest) opt =
    if String.eqb arg "--dtype" || String.eqb arg "-t" then
      parse_args_from rest
        (mkOptions value (input0 opt) (input1 opt) (output0 opt) (shapes_json opt))
    else if String.eqb arg "--input0" then
      parse_args_from rest
        (mkOptions (dtype opt) value (input1 opt) (output0 opt) (shapes_json opt))
    else if String.eqb arg "--input1" then
      parse_args_from rest
        (mkOptions (dtype opt) (input0 opt) value (output0 opt) (shapes_json opt))
    else if String.eqb arg "--output0" then
      parse_args_from rest
        (mkOptions (dtype opt) (input0 opt) (input1 opt) value (shapes_json opt))
    else if String.eqb arg "--shapes" then
      parse_args_from rest
        (mkOptions (dtype opt) (input0 opt) (input1 opt) (output0 opt) value)
    else parse_args_from (value :: rest) opt.
Proof. reflexivity. Qed.

Lemma parse_args_from_keeps_shapes (n : nat) : forall (args : list string) (opt : Options),
  (length args <= n)%nat ->
  "--shapes" ∉ args ->
  shapes_json (parse_args_from args opt) = shapes_json opt.
Proof.
  induction n as [|n IH]; intros args opt Hlen Hflag.
  - destruct args; [done|cbn in Hlen; lia].
  - destruct args as [|arg [|value rest]]; [done..|].
    assert (Harg : String.eqb arg "--shapes" = false).
    { apply String.eqb_neq. intros ->. apply Hflag. by left. }
    assert (Hrest : "--shapes" ∉ rest).
    { intros Hin. apply Hflag. by do 2 right. }
    assert (Hrest' : "--shapes" ∉ value :: rest).
    { intros Hin. apply Hflag. by right. }
    rewrite parse_args_from_step, Harg.
    destruct (String.eqb arg "--dtype" || String.eqb arg "-t");
      [by rewrite IH by (done || (cbn in Hlen; lia))|].
    destruct (String.eqb arg "--input0");
      [by rewrite IH by (done || (cbn in Hlen; lia))|].
    destruct (String.eqb arg "--input1");
      [by rewrite IH by (done || (cbn in Hlen; lia))|].
    destruct (String.eqb arg "--output0");
      [by rewrite IH by (done || (cbn in Hlen; lia))|].
    by rewrite IH by (done || (cbn in Hlen |- *; lia)).
Qed.

(** X4: a command line that does not contain the argument [--shapes]
    makes matmul_runner exit with status 1 and the message that
    [--shapes] is required, whatever else it contains, and before any
    file is opened: the environment is left as it was. *)
Theorem program_requires_shapes (argv : list string) (w : world) :
  "--shapes" ∉ tail argv ->
  program argv w = (Ok (1, Some "matmul_runner failed: --shapes is required"), w).
Proof.
  intros Hflag. unfold program, main, main_try, parse_args.
  rewrite (parse_args_from_keeps_shapes (length (tail argv))) by done.
  reflexivity.
Qed.

Lemma program_requires_shapes_witness :
  program ["matmul_runner"; "--dtype"; "int32"; "--input0"; "a.bin"; "shapes"; "2x2,2x2"]
          (plain_world example_inputs)
  = (Ok (1, Some "matmul_runner failed: --shapes is required"), plain_world example_inputs).
Proof.
  apply program_requires_shapes. apply (bool_decide_unpack _). by vm_compute.
Defined.

Lemma parse_shapes_defined text : parse_shapes text <> Undefined.
Proof.
  rewrite parse_shapes_cases.
  destruct (extract_numbers text) as [|m [|k [|k2 [|n rest]]]]; try discriminate.
  destruct (negb (k =? k2)); [discriminate|].
  destruct rest as [|out_m [|out_n rest]]; try discriminate.
  by destruct (_ || _).
Qed.

(** X5: matmul_runner validates before it touches anything: an empty
    shapes text, then a shapes text that does not parse, then a dtype
    that is neither "float32" nor "int32" each end the run with their own
    error, in this order of precedence, with the environment as it was;
    only then is the run handed to [run_matmul] at the chosen type. *)
Theorem main_try_validates_first (opts : Options) (w : world) :
  (shapes_json opts = "" -> main_try opts w = (Throw shapes_required, w)) /\
  (shapes_json opts <> "" ->
   (forall e, parse_shapes (shapes_json opts) = Throw e -> main_try opts w = (Throw e, w)) /\
   (forall shape, parse_shapes (shapes_json opts) = Ok shape ->
      (dtype opts <> "float32" -> dtype opts <> "int32" ->
       main_try opts w = (Throw (unsupported_dtype (dtype opts)), w)) /\
      (dtype opts = "float32" -> main_try opts w = run_matmul float opts shape w) /\
      (dtype opts = "int32" -> main_try opts w = run_matmul int32_t opts shape w)) /\
   ((main_try opts w).2 <> w ->
    exists shape, parse_shapes (shapes_json opts) = Ok shape /\
                  (dtype opts = "float32" \/ dtype opts = "int32"))).
Proof.
  split.
  - intros Hempty. unfold main_try. by rewrite Hempty.
  - intros Hshapes. unfold main_try. apply String.eqb_neq in Hshapes. rewrite Hshapes.
    monad_simpl. unfold resolve_dtype.
    pose proof (parse_shapes_defined (shapes_json opts)) as Hdefined.
    destruct (parse_shapes (shapes_json opts)) as [shape|e|]; [| |done].
    + split; [discriminate|]. split.
      * intros ? [= <-].
        destruct (String.eqb_spec (dtype opts) "float32") as [Hf|Hf];
          [|destruct (String.eqb_spec (dtype opts) "int32") as [Hi|Hi]].
        -- split; [done|]. split; [done|]. intros Hi. by rewrite Hi in Hf.
        -- split; [done|]. split; [done|]. done.
        -- split; [done|]. split; done.
      * intros Heffect. exists shape. split; [done|].
        destruct (String.eqb_spec (dtype opts) "float32") as [Hf|Hf]; [by left|].
        destruct (String.eqb_spec (dtype opts) "int32") as [Hi|Hi]; [by right|].
        done.
    + split; [by intros ? [= <-]|]. split; [discriminate|]. done.
Qed.

Lemma main_try_validates_first_witness :
  main_try (example_options "[[2,3],[4,5]]") (plain_world example_inputs)
  = (Throw shape_k_mismatch, plain_world example_inputs).
Proof.
  apply (proj2 (main_try_validates_first (example_options "[[2,3],[4,5]]")
                  (plain_world example_inputs))); [discriminate|reflexivity].
Defined.

(** ** More on the kernel *)

(** X6: the kernel overwrites its output buffer: with operands of the
    right lengths, what it leaves in [c] does not depend on what [c] held
    before, so the zeros that [run_matmul] puts there are never read. *)
Theorem matmul_kernel_overwrites {T} `{ElemType T} (a b c c' : list T) (m k n : N) :
  length a = (N.to_nat m * N.to_nat k)%nat ->
  length b = (N.to_nat k * N.to_nat n)%nat ->
  (m * k < 2 ^ 64)%N -> (k * n < 2 ^ 64)%N -> (m * n < 2 ^ 64)%N ->
  length c = (N.to_nat m * N.to_nat n)%nat ->
  length c' = (N.to_nat m * N.to_nat n)%nat ->
  matmul_kernel a b c m k n = matmul_kernel a b c' m k n /\
  matmul_kernel a b c m k n <> Undefined.
Proof.
  intros Ha Hb Hmk Hkn Hmn Hc Hc'.
  destruct (matmul_kernel_correct a b m k n Ha Hb Hmk Hkn Hmn c Hc)
    as (r & -> & Hlen & Hr).
  destruct (matmul_kernel_correct a b m k n Ha Hb Hmk Hkn Hmn c' Hc')
    as (r' & -> & Hlen' & Hr').
  split; [|discriminate]. f_equal. apply list_eq. intros idx.
  destruct (decide (idx < N.to_nat m * N.to_nat n)%nat) as [Hidx|Hidx].
  - assert (Hn : (0 < N.to_nat n)%nat) by nia.
    pose proof (Nat.div_mod_eq idx (N.to_nat n)) as Hdiv.
    pose proof (Nat.mod_upper_bound idx (N.to_nat n) ltac:(lia)) as Hmod.
    assert (Hrow : (idx / N.to_nat n < N.to_nat m)%nat)
      by (apply Nat.Div0.div_lt_upper_bound; lia).
    replace idx with (idx / N.to_nat n * N.to_nat n + idx mod N.to_nat n)%nat by lia.
    by rewrite Hr, Hr'.
  - rewrite !lookup_ge_None_2 by lia. reflexivity.
Qed.

Lemma matmul_kernel_overwrites_witness :
  matmul_kernel (map int32_of_Z [1; 2; 3; 4]) (map int32_of_Z [1; 0; 0; 1])
                (map int32_of_Z [9; 9; 9; 9]) 2 2 2
  = matmul_kernel (map int32_of_Z [1; 2; 3; 4]) (map int32_of_Z [1; 0; 0; 1])
                  (map int32_of_Z [0; 0; 0; 0]) 2 2 2.
Proof.
  apply (matmul_kernel_overwrites (T := int32_t)); reflexivity.
Defined.

(** X7: with an inner dimension of zero the operands are empty and,
    when the output buffer of m*n elements is granted (m*n no larger than
    the largest size of a vector, the memory not refused), the product is
    the m-by-n matrix of zeros. *)
Theorem matmul_zero_inner_dimension {T} `{ElemType T} (refused : N -> bool) (m n : Z) :
  0 <= m < 2 ^ 63 -> 0 <= n < 2 ^ 63 ->
  m * n <= Z.of_N (vector_max_size (T := T)) ->
  refused (Z.to_N (m * n) * N.of_nat sizeof)%N = false ->
  matmul_output refused (Shape m 0 n) (@nil T) []
  = Ok (replicate (Z.to_nat (m * n)) elt_zero).
Proof.
  intros Hm Hn Hmax Hgranted.
  destruct (matmul_output_in_range refused m 0 n (@nil T) []) as (c & -> & Hlen & Hc);
    try done; try (cbn; lia).
  f_equal. apply list_eq. intros idx.
  destruct (decide (idx < Z.to_nat (m * n))%nat) as [Hidx|Hidx].
  - assert (Hn' : (0 < Z.to_nat n)%nat) by nia.
    pose proof (Nat.div_mod_eq idx (Z.to_nat n)) as Hdiv.
    pose proof (Nat.mod_upper_bound idx (Z.to_nat n) ltac:(lia)) as Hmod.
    assert (Hrow : (Z.of_nat (idx / Z.to_nat n) < m)%Z).
    { assert (idx / Z.to_nat n < Z.to_nat m)%nat; [|lia].
      apply Nat.Div0.div_lt_upper_bound. nia. }
    rewrite lookup_replicate_2 by done.
    replace idx with (idx / Z.to_nat n * Z.to_nat n + idx mod Z.to_nat n)%nat by lia.
    by rewrite Hc by lia.
  - rewrite lookup_ge_None_2 by lia. symmetry. apply lookup_replicate_None. lia.
Qed.

Lemma matmul_zero_inner_dimension_witness :
  matmul_output (fun _ => false) (Shape 2 0 3) (@nil float) []
  = Ok (replicate (Z.to_nat (2 * 3)) elt_zero).
Proof.
  apply (matmul_zero_inner_dimension (T := float) (fun _ => false) 2 3);
    [lia|lia|vm_compute; discriminate|reflexivity].
Defined.

(** ** The identity product on int32 *)

Lemma byte_val_range b : 0 <= byte_val b < 256.
Proof. unfold byte_val. pose proof (Byte.to_N_bounded b). lia. Qed.

Lemma byte_of_Z_eq z b : z mod 256 = byte_val b -> byte_of_Z z = b.
Proof.
  intros Hz. unfold byte_of_Z. rewrite Hz. unfold byte_val. rewrite N2Z.id.
  by rewrite Byte.of_to_N.
Qed.

(** An [int32_t] is determined by its value. *)
Lemma int32_of_val (x : int32_t) : int32_of_Z (int32_val x) = x.
Proof.
  destruct x as [b0 b1 b2 b3]. unfold int32_of_Z. cbn [int32_val].
  rewrite int32_wrap_mod.
  pose proof (byte_val_range b0). pose proof (byte_val_range b1).
  pose proof (byte_val_range b2). pose proof (byte_val_range b3).
  unfold bits_of_bytes, bytes_of_bits.
  change (2 ^ 8) with 256. change (2 ^ 16) with 65536. change (2 ^ 24) with 16777216.
  change (2 ^ 32) with 4294967296.
  rewrite Z.mod_small by lia. cbn [int32_of_bytes].
  f_equal; apply byte_of_Z_eq; Z.div_mod_to_equations; lia.
Qed.

Lemma int32_val_inj (x y : int32_t) : int32_val x = int32_val y -> x = y.
Proof. intros Hxy. by rewrite <- (int32_of_val x), <- (int32_of_val y), Hxy. Qed.

Lemma int32_wrap_val (x : int32_t) : Int32.wrap (int32_val x) = int32_val x.
Proof. by rewrite <- int32_val_of_Z, int32_of_val. Qed.

(** A sum against a row of the identity picks one term. *)
Lemma sum_against_unit (f g : nat -> Z) (j n : nat) :
  (forall p, (p < n)%nat -> g p = if decide (p = j) then 1 else 0) ->
  fold_left (fun sum p => sum + f p * g p) (seq 0 n) 0
  = if decide (j < n)%nat then f j else 0.
Proof.
  induction n as [|n IH]; intros Hg; [done|].
  rewrite seq_S, fold_left_app. cbn [fold_left Nat.add].
  rewrite IH by (intros p Hp; apply Hg; lia). rewrite (Hg n) by lia.
  destruct (decide (n = j)) as [->|Hne].
  - destruct (decide (j < j)%nat); [lia|]. destruct (decide (j < S j)%nat); lia.
  - destruct (decide (j < n)%nat), (decide (j < S n)%nat); lia.
Qed.

(** X8: on int32, multiplying by the identity matrix gives the left
    operand back, element for element (no term of the sum wraps): for an
    m-by-n buffer [a] and an n-by-n buffer [b] holding 1 on the diagonal and
    0 elsewhere, the output of the kernel is [a], whatever the output
    buffer held; so is the output of [run_matmul] when its buffer is
    granted. *)
Theorem matmul_identity_int32 (m n : Z) (a b : list int32_t) :
  0 <= m < 2 ^ 63 -> 0 <= n < 2 ^ 63 ->
  m * n < 2 ^ 64 -> n * n < 2 ^ 64 ->
  Z.of_nat (length a) = m * n ->
  Z.of_nat (length b) = n * n ->
  (forall p q : nat, Z.of_nat p < n -> Z.of_nat q < n ->
     b !! (p * Z.to_nat n + q)%nat = Some (int32_of_Z (if decide (p = q) then 1 else 0))) ->
  (forall c : list int32_t,
     Z.of_nat (length c) = m * n ->
     matmul_kernel a b c (Z.to_N m) (Z.to_N n) (Z.to_N n) = Ok a) /\
  (forall refused : N -> bool,
     m * n <= Z.of_N (vector_max_size (T := int32_t)) ->
     refused (Z.to_N (m * n) * N.of_nat sizeof)%N = false ->
     matmul_output refused (Shape m n n) a b = Ok a).
Proof.
  intros Hm Hn Hmn Hnn Ha Hb Hunit.
  assert (Hkernel : forall c : list int32_t,
            Z.of_nat (length c) = m * n ->
            matmul_kernel a b c (Z.to_N m) (Z.to_N n) (Z.to_N n) = Ok a).
  { intros c0 Hc0.
    destruct (matmul_kernel_in_range m n n a b c0) as (c & -> & Hlen & Hc); try done.
    f_equal. apply list_eq. intros idx.
    destruct (decide (idx < length a)%nat) as [Hidx|Hidx];
      [|by rewrite !lookup_ge_None_2 by lia].
    assert (Hn' : (0 < Z.to_nat n)%nat) by nia.
    pose proof (Nat.div_mod_eq idx (Z.to_nat n)) as Hdiv.
    pose proof (Nat.mod_upper_bound idx (Z.to_nat n) ltac:(lia)) as Hmod.
    assert (Hrow : (idx / Z.to_nat n < Z.to_nat m)%nat)
      by (apply Nat.Div0.div_lt_upper_bound; nia).
    set (i := (idx / Z.to_nat n)%nat) in *. set (j := (idx mod Z.to_nat n)%nat) in *.
    assert (Hij : idx = (i * Z.to_nat n + j)%nat) by lia.
    rewrite Hij at 1. rewrite Hc by lia.
    destruct (lookup_lt_is_Some_2 a idx Hidx) as [x Hx]. rewrite Hx. f_equal.
    apply int32_val_inj. rewrite int32_dot_product_val.
    rewrite (sum_against_unit _ (fun p => int32_val (nth (p * Z.to_nat n + j) b elt_zero)) j).
    - destruct (decide (j < Z.to_nat n)%nat); [|lia].
      rewrite <- Hij, (nth_lookup_Some a idx _ x Hx). apply int32_wrap_val.
    - intros p Hp. rewrite (nth_lookup_Some b _ _ _ (Hunit p j ltac:(lia) ltac:(lia))).
      rewrite int32_val_of_Z. by destruct (decide (p = j)). }
  split; [exact Hkernel|].
  intros refused Hmax Hgranted. rewrite matmul_output_granted by done.
  apply Hkernel. rewrite length_replicate. lia.
Qed.

Lemma matmul_identity_int32_witness :
  matmul_kernel (map int32_of_Z [1; -2; 3; 4; 2147483647; -2147483648])
                (map int32_of_Z [1; 0; 0; 1]) (map int32_of_Z [7; 7; 7; 7; 7; 7])
                (Z.to_N 3) (Z.to_N 2) (Z.to_N 2)
  = Ok (map int32_of_Z [1; -2; 3; 4; 2147483647; -2147483648]).
Proof.
  assert (Hunit : forall p q : nat, Z.of_nat p < 2 -> Z.of_nat q < 2 ->
            map int32_of_Z [1; 0; 0; 1] !! (p * Z.to_nat 2 + q)%nat
            = Some (int32_of_Z (if decide (p = q) then 1 else 0))).
  { intros [|[|p]] [|[|q]] Hp Hq; try lia; reflexivity. }
  exact (proj1 (matmul_identity_int32 3 2
                  (map int32_of_Z [1; -2; 3; 4; 2147483647; -2147483648])
                  (map int32_of_Z [1; 0; 0; 1])
                  ltac:(lia) ltac:(lia) ltac:(lia) ltac:(lia) eq_refl eq_refl Hunit)
               (map int32_of_Z [7; 7; 7; 7; 7; 7]) eq_refl).
Defined.

(** ** What reading and writing do to the files *)

(** X9: [read_file] changes no file and leaves one trace, the opening of
    its path. It fails to open exactly when the path names neither a
    regular file nor a directory. On a regular file the read never comes
    short of the size that was measured: "failed to read" is the error of
    a path that opened without being a regular file, which gives at most
    the empty buffer, and the alignment error whenever the offset reported
    for its end is no multiple of [sizeof(T)]. *)
Theorem read_file_effects {T} `{ElemType T} (path : string) (w : world) :
  (read_file (T := T) path w).2 = record_event (ev_open_read path) w /\
  files (read_file (T := T) path w).2 = files w /\
  ((read_file (T := T) path w).1 = Throw (failed_to_open path)
   <-> files w !! path = None /\ directories w path = None) /\
  ((read_file (T := T) path w).1 = Throw (failed_to_read path) ->
   files w !! path = None /\ exists size, directories w path = Some size /\ size <> 0) /\
  (forall data : list T,
     (read_file (T := T) path w).1 = Ok data -> files w !! path = None -> data = []) /\
  (forall size : Z,
     files w !! path = None -> directories w path = Some size ->
     Z.rem size (Z.of_nat sizeof) <> 0 ->
     (read_file (T := T) path w).1 = Throw (size_not_aligned path)).
Proof.
  split; [apply read_file_world|]. split; [by rewrite read_file_world|].
  rewrite read_file_eval. destruct (files w !! path) as [content|].
  - destruct (_ =? _)%nat; cbn [fst]; (split; [split; [done|by intros [? _]]|]);
      (split; [done|]); split; done.
  - destruct (directories w path) as [size|]; cbn [fst].
    + split; [split; [|by intros [_ ?]]|].
      { intros Hopen. by apply read_directory_not_failed_to_open in Hopen. }
      split; [|split].
      * intros Hread%read_directory_failed_to_read. split; [done|]. by exists size.
      * intros data Hdata%read_directory_ok _. by destruct Hdata.
      * intros size' _ [= <-] Hrem. by rewrite read_directory_not_aligned.
    + split; [done|]. split; [done|]. split; done.
Qed.

Lemma read_file_effects_witness :
  (read_file (T := float) "data"
     (World example_inputs (fun p => if String.eqb p "data" then Some (2 ^ 63 - 1) else None)
            (fun _ => false) (fun _ => "") (fun _ => false) (fun _ => None)
            (fun _ => false) [])).1
  = Throw (size_not_aligned "data").
Proof.
  apply (proj2 (proj2 (proj2 (proj2 (proj2 (read_file_effects (T := float) "data"
      (World example_inputs (fun p => if String.eqb p "data" then Some (2 ^ 63 - 1) else None)
             (fun _ => false) (fun _ => "") (fun _ => false) (fun _ => None)
             (fun _ => false) []))))))
          (2 ^ 63 - 1)); [by vm_compute|by vm_compute|by vm_compute].
Defined.


(** X10: [write_file] of matmul_runner fails in three ways only. When
    the directories cannot be created or the file cannot be opened, every
    file is as before. Once the file is open it holds what the file system
    took of the buffer's bytes, a prefix of them. A write that comes short
    is reported, as "failed to write", when the buffer has at least 1024
    bytes; a shorter buffer only fills the stream's buffer, which is
    flushed when the stream is destroyed: [write_file] then returns
    normally even though bytes are missing from the file. *)
Theorem write_file_effects {T} `{ElemType T} `{!ElemTypeLaws T} (path : string)
    (data : list T) (w : world) :
  (forall e : error, (write_file path data w).1 = Throw e ->
     (e = create_directories_failed path (mkdir_what w path)
      \/ e = failed_to_open_for_write path) /\
     files (write_file path data w).2 = files w
     \/
     e = failed_to_write path /\
     (ofstream_chunk <= length data * sizeof)%nat /\
     exists stored : list byte,
       files (write_file path data w).2 !! path = Some stored /\
       (length stored < length data * sizeof)%nat) /\
  (mkdir_fails w path = false -> open_write_fails w path = false ->
   exists stored : list byte,
     files (write_file path data w).2 !! path = Some stored /\
     stored `prefix_of` mem_of data /\
     ((length data * sizeof < ofstream_chunk)%nat -> (write_file path data w).1 = Ok ()) /\
     ((ofstream_chunk <= length data * sizeof)%nat ->
      ((write_file path data w).1 = Ok () <-> stored = mem_of data) /\
      ((write_file path data w).1 = Throw (failed_to_write path) <-> stored <> mem_of data))).
Proof.
  split.
  - rewrite write_file_eval.
    destruct (mkdir_fails w path).
    { intros e [= <-]. left. split; [by left|done]. }
    destruct (open_write_fails w path); cbv zeta.
    { intros e [= <-]. left. split; [by right|done]. }
    rewrite (take_ge (mem_of data)) by (rewrite length_mem_of; lia).
    destruct (ofstream_chunk <=? _)%nat eqn:Hchunk; [|done].
    destruct (_ <? _)%nat eqn:Hshort; [|done]. cbn [andb fst snd].
    intros e [= <-]. right. split; [done|].
    apply Nat.leb_le in Hchunk. apply Nat.ltb_lt in Hshort.
    rewrite length_mem_of in Hchunk, Hshort. split; [done|].
    eexists. split; [cbn [files with_file]; apply lookup_insert_eq|done].
  - intros Hmkdir Hopen.
    pose proof (write_file_stored path data w Hmkdir Hopen) as Hstored.
    eexists. split; [exact Hstored|].
    split; [destruct (write_limit w path); [apply prefix_take|done]|].
    rewrite write_file_eval, Hmkdir, Hopen. cbv zeta.
    rewrite (take_ge (mem_of data)) by (rewrite length_mem_of; lia).
    rewrite (length_mem_of data). split.
    + intros Hsmall. apply Nat.leb_gt in Hsmall. by rewrite Hsmall.
    + intros Hlarge. apply Nat.leb_le in Hlarge. rewrite Hlarge. cbn [andb].
      destruct (_ <? _)%nat eqn:Hshort; cbn [fst].
      * apply Nat.ltb_lt in Hshort.
        assert (Hne : match write_limit w path with
                      | Some n => take n (mem_of data)
                      | None => mem_of data
                      end <> mem_of data).
        { intros Heq. rewrite Heq, length_mem_of in Hshort. lia. }
        split; split; done.
      * apply Nat.ltb_ge in Hshort.
        assert (Heq : match write_limit w path with
                      | Some n => take n (mem_of data)
                      | None => mem_of data
                      end = mem_of data).
        { apply stored_bytes_eq.
          assert (Hle : (length match write_limit w path with
                                | Some n => take n (mem_of data)
                                | None => mem_of data
                                end <= length (mem_of data))%nat).
          { destruct (write_limit w path); [rewrite length_take; lia|done]. }
          rewrite length_mem_of in Hle |- *. lia. }
        split; split; done.
Qed.

Lemma write_file_effects_witness :
  (write_file "out/output0.bin" (map int32_of_Z [7; 8])
     (World ∅ (fun _ => None) (fun _ => false) (fun _ => "") (fun _ => false)
            (fun _ => Some 3%nat) (fun _ => false) [])).1 = Ok ().
Proof.
  destruct (proj2 (write_file_effects "out/output0.bin" (map int32_of_Z [7; 8])
     (World ∅ (fun _ => None) (fun _ => false) (fun _ => "") (fun _ => false)
            (fun _ => Some 3%nat) (fun _ => false) [])) eq_refl eq_refl)
    as (stored & _ & _ & Hsmall & _).
  apply Hsmall. vm_compute. lia.
Defined.

(** ** The matmul run, end to end *)



(** ** The elementwise runners *)



Lemma square_correct {T} `{ElemType T} (input : list T) :
  exists out,
    SquareRunner.square input = Ok out /\
    (length out = length input /\
     forall i, (i < length input)%nat ->
       out !! i = Some (elt_mul (nth i input elt_zero) (nth i input elt_zero))).
Proof.
  unfold SquareRunner.square.
  apply (for_loop_invariant (fun t (out : list T) =>
    length out = length input /\
    forall i, (i < t)%nat ->
      out !! i = Some (elt_mul (nth i input elt_zero) (nth i input elt_zero)))).
  - split; [apply length_replicate|lia].
  - intros t out Ht [Hout Hdone]. rewrite N.add_0_l, Nat2N.id.
    rewrite (vec_at_nth input t elt_zero) by lia.
    outcome_simpl. unfold vec_set.
    assert (Hidx : (t <? length out)%nat = true) by (apply Nat.ltb_lt; lia).
    rewrite Hidx. eexists. split; [reflexivity|]. split; [by rewrite length_insert|].
    intros i Hi. destruct (decide (i = t)) as [->|Hne].
    + apply list_lookup_insert_eq. lia.
    + rewrite list_lookup_insert_ne by done. apply Hdone. lia.
Qed.

Lemma add_vectors_zip {T} `{ElemType T} (a b : list T) :
  length a = length b -> OpRunner.add_vectors a b = Ok (zip_with elt_add a b).
Proof.
  intros Hlen. destruct (add_vectors_correct a b Hlen) as (out & -> & Hout & Hat).
  f_equal. apply list_eq. intros i.
  destruct (decide (i < length a)%nat) as [Hi|Hi].
  - rewrite Hat by done. rewrite lookup_zip_with.
    destruct (lookup_lt_is_Some_2 a i Hi) as [x Hx].
    destruct (lookup_lt_is_Some_2 b i ltac:(lia)) as [y Hy].
    rewrite Hx, Hy. cbn.
    by rewrite (nth_lookup_Some _ _ _ _ Hx), (nth_lookup_Some _ _ _ _ Hy).
  - rewrite !lookup_ge_None_2; [done|rewrite length_zip_with; lia|lia].
Qed.

Lemma square_map {T} `{ElemType T} (input : list T) :
  SquareRunner.square input = Ok ((fun x => elt_mul x x) <$> input).
Proof.
  destruct (square_correct input) as (out & -> & Hout & Hat).
  f_equal. apply list_eq. intros i.
  destruct (decide (i < length input)%nat) as [Hi|Hi].
  - rewrite Hat by done. rewrite list_lookup_fmap.
    destruct (lookup_lt_is_Some_2 input i Hi) as [x Hx].
    rewrite Hx. cbn. by rewrite (nth_lookup_Some _ _ _ _ Hx).
  - rewrite !lookup_ge_None_2; [done|rewrite length_fmap; lia|lia].
Qed.

Lemma int32_wrap_small z : - 2 ^ 31 <= z < 2 ^ 31 -> Int32.wrap z = z.
Proof. intros Hz. unfold Int32.wrap. rewrite Z.mod_small; lia. Qed.



(** X14: on [int32_t] buffers of one length whose pairwise sums stay
    within the 32-bit range, [add_vectors] returns the exact sums. *)
Theorem add_vectors_int32_exact (a b : list int32_t) :
  Forall2 (fun x y => - 2 ^ 31 <= int32_val x + int32_val y < 2 ^ 31) a b ->
  exists out,
    OpRunner.add_vectors a b = Ok out /\
    int32_val <$> out = zip_with Z.add (int32_val <$> a) (int32_val <$> b).
Proof.
  intros Hab. exists (zip_with elt_add a b).
  split; [apply add_vectors_zip; by eapply Forall2_length|].
  induction Hab as [|x y a b Hxy Hab IH]; [done|].
  cbn [zip_with fmap list_fmap]. rewrite int32_add_val, int32_wrap_small by done.
  f_equal. apply IH.
Qed.

Lemma add_vectors_int32_exact_witness :
  exists out,
    OpRunner.add_vectors (map int32_of_Z [1; -2; 3]) (map int32_of_Z [10; 20; -30]) = Ok out /\
    int32_val <$> out = [11; 18; -27].
Proof.
  apply (add_vectors_int32_exact (map int32_of_Z [1; -2; 3]) (map int32_of_Z [10; 20; -30])).
  repeat (constructor; [by vm_compute|]). constructor.
Defined.


(** X16: on an [int32_t] buffer whose values have squares below 2^31,
    [square] returns the exact squares. *)
Theorem square_int32_exact (input : list int32_t) :
  Forall (fun x => int32_val x * int32_val x < 2 ^ 31) input ->
  exists out,
    SquareRunner.square input = Ok out /\
    int32_val <$> out = (fun v => v * v) <$> (int32_val <$> input).
Proof.
  intros Hin. exists ((fun x => elt_mul x x) <$> input). split; [apply square_map|].
  induction Hin as [|x input Hx Hin IH]; [done|].
  cbn [fmap list_fmap]. rewrite int32_mul_val, int32_wrap_small by nia.
  f_equal. apply IH.
Qed.

Lemma square_int32_exact_witness :
  exists out,
    SquareRunner.square (map int32_of_Z [3; -4; 46340]) = Ok out /\
    int32_val <$> out = [9; 16; 2147395600].
Proof.
  apply (square_int32_exact (map int32_of_Z [3; -4; 46340])).
  repeat (constructor; [by vm_compute|]). constructor.
Defined.






(** X19: both elementwise runners create the directory of the output
    before they look at the dtype or at any input. If that fails, the run
    ends there with the environment as it was; otherwise the directory
    exists even when the dtype is then refused, and only "float32" and
    "int32" hand the run to the typed body. *)
Theorem elementwise_main_creates_directory_first :
  (forall (opts : OpRunner.Options) (w : world),
     (mkdir_fails w (OpRunner.output opts) = true ->
      OpRunner.main_try opts w
      = (Throw (create_directories_failed (OpRunner.output opts)
                                         (mkdir_what w (OpRunner.output opts))), w)) /\
     (mkdir_fails w (OpRunner.output opts) = false ->
      let w1 := record_event (ev_create_directories (OpRunner.output opts)) w in
      (OpRunner.dtype opts = "float32" ->
       OpRunner.main_try opts w = OpRunner.run_add float opts w1) /\
      (OpRunner.dtype opts = "int32" ->
       OpRunner.main_try opts w = OpRunner.run_add int32_t opts w1) /\
      (OpRunner.dtype opts <> "float32" -> OpRunner.dtype opts <> "int32" ->
       OpRunner.main_try opts w = (Throw (unsupported_dtype (OpRunner.dtype opts)), w1)))) /\
  (forall (opts : SquareRunner.Options) (w : world),
     (mkdir_fails w (SquareRunner.output opts) = true ->
      SquareRunner.main_try opts w
      = (Throw (create_directories_failed (SquareRunner.output opts)
                                         (mkdir_what w (SquareRunner.output opts))), w)) /\
     (mkdir_fails w (SquareRunner.output opts) = false ->
      let w1 := record_event (ev_create_directories (SquareRunner.output opts)) w in
      (SquareRunner.dtype opts = "float32" ->
       SquareRunner.main_try opts w = SquareRunner.run_square float opts w1) /\
      (SquareRunner.dtype opts = "int32" ->
       SquareRunner.main_try opts w = SquareRunner.run_square int32_t opts w1) /\
      (SquareRunner.dtype opts <> "float32" -> SquareRunner.dtype opts <> "int32" ->
       SquareRunner.main_try opts w
       = (Throw (unsupported_dtype (SquareRunner.dtype opts)), w1)))).
Proof.
  split; intros opts w.
  - unfold OpRunner.main_try. monad_simpl. split; [by intros ->|]. intros ->.
    unfold resolve_dtype. cbv zeta.
    destruct (String.eqb_spec (OpRunner.dtype opts) "float32") as [Hf|Hf];
      [|destruct (String.eqb_spec (OpRunner.dtype opts) "int32") as [Hi|Hi]].
    + split; [done|]. split; [|done]. intros Hi. by rewrite Hi in Hf.
    + split; [done|]. split; done.
    + split; [done|]. split; done.
  - unfold SquareRunner.main_try. monad_simpl. split; [by intros ->|]. intros ->.
    unfold resolve_dtype. cbv zeta.
    destruct (String.eqb_spec (SquareRunner.dtype opts) "float32") as [Hf|Hf];
      [|destruct (String.eqb_spec (SquareRunner.dtype opts) "int32") as [Hi|Hi]].
    + split; [done|]. split; [|done]. intros Hi. by rewrite Hi in Hf.
    + split; [done|]. split; done.
    + split; [done|]. split; done.
Qed.

Lemma elementwise_main_creates_directory_first_witness :
  OpRunner.main_try
    (OpRunner.mkOptions "float64" "data/input0.bin" "data/input1.bin" "out/sum.bin")
    (plain_world example_inputs)
  = (Throw (unsupported_dtype "float64"),
     record_event (ev_create_directories "out/sum.bin") (plain_world example_inputs)).
Proof.
  apply (proj2 (proj2 (proj2 (proj1 elementwise_main_creates_directory_first
           (OpRunner.mkOptions "float64" "data/input0.bin" "data/input1.bin" "out/sum.bin")
           (plain_world example_inputs)) eq_refl))); discriminate.
Defined.

(** ** The command lines of the elementwise runners *)

Lemma add_parse_args_from_step (arg value : string) (rest : list string)
    (opt : OpRunner.Options) :
  AddRunner.parse_args_from (arg :: value :: rest) opt =
    if String.eqb arg "--dtype" || String.eqb arg "-t" then
      AddRunner.parse_args_from rest
        (OpRunner.mkOptions value (OpRunner.input0 opt) (OpRunner.input1 opt)
                            (OpRunner.output opt))
    else if String.eqb arg "--input0" then
      AddRunner.parse_args_from rest
        (OpRunner.mkOptions (OpRunner.dtype opt) value (OpRunner.input1 opt)
                            (OpRunner.output opt))
    else if String.eqb arg "--input1" then
      AddRunner.parse_args_from rest
        (OpRunner.mkOptions (OpRunner.dtype opt) (OpRunner.input0 opt) value
                            (OpRunner.output opt))
    else if String.eqb arg "--output" then
      AddRunner.parse_args_from rest
        (OpRunner.mkOptions (OpRunner.dtype opt) (OpRunner.input0 opt)
                            (OpRunner.input1 opt) value)
    else AddRunner.parse_args_from (value :: rest) opt.
Proof. reflexivity. Qed.

Lemma square_parse_args_from_step (arg value : string) (rest : list string)
    (opt : SquareRunner.Options) :
  SquareRunner.parse_args_from (arg :: value :: rest) opt =
    if String.eqb arg "--dtype" || String.eqb arg "-t" then
      SquareRunner.parse_args_from rest
        (SquareRunner.mkOptions value (SquareRunner.input opt) (SquareRunner.output opt))
    else if String.eqb arg "--input" then
      SquareRunner.parse_args_from rest
        (SquareRunner.mkOptions (SquareRunner.dtype opt) value (SquareRunner.output opt))
    else if String.eqb arg "--output" then
      SquareRunner.parse_args_from rest
        (SquareRunner.mkOptions (SquareRunner.dtype opt) (SquareRunner.input opt) value)
    else SquareRunner.parse_args_from (value :: rest) opt.
Proof. reflexivity. Qed.

Ltac absent_flag :=
  repeat match goal with
         | H : _ ∉ _ :: _ |- _ => apply not_elem_of_cons in H as [? ?]
         end;
  try done.

Ltac still_absent := first [done | apply not_elem_of_cons; split; done].

Lemma add_parse_args_from_keeps (n : nat) :
  forall (args : list string) (opt : OpRunner.Options),
  (length args <= n)%nat ->
  ("--dtype" ∉ args -> "-t" ∉ args ->
   OpRunner.dtype (AddRunner.parse_args_from args opt) = OpRunner.dtype opt) /\
  ("--input0" ∉ args ->
   OpRunner.input0 (AddRunner.parse_args_from args opt) = OpRunner.input0 opt) /\
  ("--input1" ∉ args ->
   OpRunner.input1 (AddRunner.parse_args_from args opt) = OpRunner.input1 opt) /\
  ("--output" ∉ args ->
   OpRunner.output (AddRunner.parse_args_from args opt) = OpRunner.output opt).
Proof.
  induction n as [|n IH]; intros args opt Hlen.
  - destruct args; [done|cbn in Hlen; lia].
  - destruct args as [|arg [|value rest]]; [done..|].
    rewrite add_parse_args_from_step.
    assert (Hrest : (length rest <= n)%nat) by (cbn in Hlen; lia).
    assert (Hrest' : (length (value :: rest) <= n)%nat) by (cbn in Hlen |- *; lia).
    destruct (String.eqb_spec arg "--dtype") as [->|?];
      [|destruct (String.eqb_spec arg "-t") as [->|?];
        [|destruct (String.eqb_spec arg "--input0") as [->|?];
          [|destruct (String.eqb_spec arg "--input1") as [->|?];
            [|destruct (String.eqb_spec arg "--output") as [->|?]]]]];
      cbn [orb];
      match goal with
      | |- context [AddRunner.parse_args_from ?l ?o] =>
          destruct (IH l o ltac:(done)) as (Hd & H0 & H1 & Ho)
      end;
      (split; [|split; [|split]]); intros; absent_flag;
      first [rewrite Hd by still_absent | rewrite H0 by still_absent
            | rewrite H1 by still_absent | rewrite Ho by still_absent]; reflexivity.
Qed.

Lemma square_parse_args_from_keeps (n : nat) :
  forall (args : list string) (opt : SquareRunner.Options),
  (length args <= n)%nat ->
  ("--dtype" ∉ args -> "-t" ∉ args ->
   SquareRunner.dtype (SquareRunner.parse_args_from args opt) = SquareRunner.dtype opt) /\
  ("--input" ∉ args ->
   SquareRunner.input (SquareRunner.parse_args_from args opt) = SquareRunner.input opt) /\
  ("--output" ∉ args ->
   SquareRunner.output (SquareRunner.parse_args_from args opt) = SquareRunner.output opt).
Proof.
  induction n as [|n IH]; intros args opt Hlen.
  - destruct args; [done|cbn in Hlen; lia].
  - destruct args as [|arg [|value rest]]; [done..|].
    rewrite square_parse_args_from_step.
    assert (Hrest : (length rest <= n)%nat) by (cbn in Hlen; lia).
    assert (Hrest' : (length (value :: rest) <= n)%nat) by (cbn in Hlen |- *; lia).
    destruct (String.eqb_spec arg "--dtype") as [->|?];
      [|destruct (String.eqb_spec arg "-t") as [->|?];
        [|destruct (String.eqb_spec arg "--input") as [->|?];
          [|destruct (String.eqb_spec arg "--output") as [->|?]]]];
      cbn [orb];
      match goal with
      | |- context [SquareRunner.parse_args_from ?l ?o] =>
          destruct (IH l o ltac:(done)) as (Hd & Hi & Ho)
      end;
      (split; [|split]); intros; absent_flag;
      first [rewrite Hd by still_absent | rewrite Hi by still_absent
            | rewrite Ho by still_absent]; reflexivity.
Qed.

(** X20: in both elementwise runners an option whose flag occurs nowhere
    after the program name keeps its default, whatever else the command
    line holds: no other flag, value or stray argument changes it. *)
Theorem elementwise_parse_args_defaults :
  (forall argv : list string,
     ("--dtype" ∉ tail argv -> "-t" ∉ tail argv ->
      OpRunner.dtype (AddRunner.parse_args argv) = "float32") /\
     ("--input0" ∉ tail argv ->
      OpRunner.input0 (AddRunner.parse_args argv) = "input/input0.bin") /\
     ("--input1" ∉ tail argv ->
      OpRunner.input1 (AddRunner.parse_args argv) = "input/input1.bin") /\
     ("--output" ∉ tail argv ->
      OpRunner.output (AddRunner.parse_args argv) = "output/output0.bin")) /\
  (forall argv : list string,
     ("--dtype" ∉ tail argv -> "-t" ∉ tail argv ->
      SquareRunner.dtype (SquareRunner.parse_args argv) = "float32") /\
     ("--input" ∉ tail argv ->
      SquareRunner.input (SquareRunner.parse_args argv) = "input/input0.bin") /\
     ("--output" ∉ tail argv ->
      SquareRunner.output (SquareRunner.parse_args argv) = "output/output0.bin")).
Proof.
  split; intros argv.
  - exact (add_parse_args_from_keeps (length (tail argv)) (tail argv)
             AddRunner.default_options (le_n _)).
  - exact (square_parse_args_from_keeps (length (tail argv)) (tail argv)
             SquareRunner.default_options (le_n _)).
Qed.

Lemma elementwise_parse_args_defaults_witness :
  OpRunner.output (AddRunner.parse_args
    ["--output"; "--dtype"; "int32"; "--input0"; "--input1"; "-v"; "--input1"])
  = "output/output0.bin".
Proof.
  apply (proj2 (proj2 (proj2 (proj1 elementwise_parse_args_defaults
    ["--output"; "--dtype"; "int32"; "--input0"; "--input1"; "-v"; "--input1"])))).
  apply (bool_decide_unpack _). by vm_compute.
Defined.

(** ** The elementwise programs as a whole *)








